(** * Overlay generator of the kustomize-controller

    A shallow embedding of [controllers/kustomization_generator.go]: the
    synthesis of the build configuration in a staging directory, the
    generation token (checksum), the label transformer, the invocation of
    the build engine and the post-build variable substitution.

    Go strings and byte slices are [string]; a Go [map[string]string] is a
    [gmap string string]; the staging directory is a tree of named nodes and
    the functions that touch the disk thread it explicitly. *)

From Stdlib Require Import Ascii String List Bool Arith Lia.
From stdpp Require Import gmap strings list fin_maps.

Set Default Proof Using "Type".
Set Warnings "-register-all".

(** ** Errors and results *)

(** Go [error] values.  [ErrWrap] is [fmt.Errorf("<prefix>: %w", cause)]. *)
Inductive error : Type :=
| ErrNotExist (path : string)
| ErrIsDir (path : string)
| ErrExternal (msg : string)
| ErrWrap (prefix : string) (cause : error).

Inductive result (A : Type) : Type :=
| Ok (a : A)
| Err (e : error).
Arguments Ok {A} a.
Arguments Err {A} e.

Definition is_ok {A} (r : result A) : bool :=
  match r with Ok _ => true | Err _ => false end.

(** ** Paths *)

Definition sep : string := "/".

(** [filepath.Join] of a clean directory path and the name of an entry of
    that directory.  The result is cleaned: it is the directory, a
    separator and the name, and under the root directory, which ends in
    the separator, the name follows at once.  No entry has the empty name;
    for it the separator is kept, so that the path of an entry is never
    the path of its directory. *)
Definition Join (dir name : string) : string :=
  if String.eqb dir sep && negb (String.eqb name EmptyString)
  then dir +:+ name
  else dir +:+ sep +:+ name.

(** [filepath.Ext]: scan from the end of [path] while no separator is met;
    at the first dot return the suffix that starts there. *)
Fixpoint ext_scan (rev_path : list ascii) (suffix : list ascii) : list ascii :=
  match rev_path with
  | [] => []
  | c :: before =>
      if Ascii.eqb c "/" then []
      else if Ascii.eqb c "." then c :: suffix
      else ext_scan before (c :: suffix)
  end.

Definition Ext (path : string) : string :=
  string_of_list_ascii (ext_scan (rev (list_ascii_of_string path)) []).

(** [strings.Replace(s, old, new, 1)]: the first occurrence of [old] in [s]
    is replaced; [s] is returned as it is when [old] does not occur. *)
Fixpoint try_replace_first (old new s : string) : option string :=
  if String.prefix old s
  then Some (new +:+ String.substring (String.length old)
                                       (String.length s - String.length old) s)
  else match s with
       | EmptyString => None
       | String c rest => String c <$> try_replace_first old new rest
       end.

Definition strings_Replace1 (s old new : string) : string :=
  default s (try_replace_first old new s).

(** ** The staging directory *)

(** A node of the tree under the staging directory.  The entries of a
    directory are listed in the order [readDirNames] returns them, which is
    lexical. *)
Inductive node : Type :=
| File (data : string)
| Dir (entries : list (string * node)).

(** The entries of the staging directory itself. *)
Definition FS : Type := list (string * node).

Definition is_dir (n : node) : bool :=
  match n with Dir _ => true | File _ => false end.

Fixpoint fs_lookup (name : string) (entries : list (string * node)) : option node :=
  match entries with
  | [] => None
  | (n, x) :: rest => if String.eqb n name then Some x else fs_lookup name rest
  end.

(** [fs.Exists(kpath) && !fs.IsDir(kpath)] for [kpath] = the directory
    joined with [name]. *)
Definition is_file (entries : list (string * node)) (name : string) : bool :=
  match fs_lookup name entries with
  | Some (File _) => true
  | _ => false
  end.

(** [ioutil.ReadFile] of [dirPath/name]. *)
Definition fs_ReadFile (dirPath name : string) (fs : FS) : result string :=
  match fs_lookup name fs with
  | Some (File data) => Ok data
  | Some (Dir _) => Err (ErrIsDir (Join dirPath name))
  | None => Err (ErrNotExist (Join dirPath name))
  end.

(** A new entry goes to its place in the lexical order. *)
Fixpoint fs_put (name : string) (x : node) (entries : list (string * node))
  : list (string * node) :=
  match entries with
  | [] => [(name, x)]
  | (n, y) :: rest =>
      if String.eqb n name then (name, x) :: rest
      else if String.ltb name n then (name, x) :: (n, y) :: rest
      else (n, y) :: fs_put name x rest
  end.

(** [ioutil.WriteFile] (and [fs.Create], with empty data) of [dirPath/name]:
    creates the file or truncates and rewrites it; a directory of that name
    makes it fail and nothing changes. *)
Definition fs_WriteFile (dirPath name data : string) (fs : FS) : FS * option error :=
  match fs_lookup name fs with
  | Some (Dir _) => (fs, Some (ErrIsDir (Join dirPath name)))
  | _ => (fs_put name (File data) fs, None)
  end.

(** ** Constants of the kustomize API *)

(** [konfig.RecognizedKustomizationFileNames()]. *)
Definition RecognizedKustomizationFileNames : list string :=
  ["kustomization.yaml"; "kustomization.yml"; "Kustomization"].

(** [konfig.DefaultKustomizationFileName()]: the first recognized name. *)
Definition DefaultKustomizationFileName : string :=
  hd "" RecognizedKustomizationFileNames.

Definition transformerFileName : string := "kustomization-gc-labels.yaml".

(** The loop over the recognized names that both [generateKustomization]
    and its scan run on a directory: is one of them an existing
    non-directory there? *)
Definition has_kfile (entries : list (string * node)) : bool :=
  existsb (is_file entries) RecognizedKustomizationFileNames.

(** Modelled from the spec: [containsString] is a helper of the package that
    is defined outside this file; it tells whether the string is one of the
    listed ones (the "YAML-like" extensions). *)
Definition containsString (l : list string) (s : string) : bool :=
  existsb (String.eqb s) l.

(** ** [filepath.Walk] *)

(** What a walk function returns: [nil], [filepath.SkipDir] or an error. *)
Inductive walkResult : Type :=
| WalkNil
| WalkSkipDir
| WalkErr (e : error).

Section Walk.
Context {S : Type}.
(** The walk function receives the path and the node found there (its
    [os.FileInfo], and what the file system shows at and below the path);
    the variables it captures are the state [S]. *)
Variable walkFn : string -> node -> S -> S * walkResult.

Fixpoint walk (path : string) (info : node) (s : S) {struct info} : S * walkResult :=
  match info with
  | File _ => walkFn path info s
  | Dir names =>
      let '(s1, err1) := walkFn path info s in
      match err1 with
      | WalkNil =>
          (fix loop (names : list (string * node)) (s : S) {struct names} :=
             match names with
             | [] => (s, WalkNil)
             | (name, child) :: rest =>
                 let '(s', err) := walk (Join path name) child s in
                 match err with
                 | WalkNil => loop rest s'
                 | WalkSkipDir =>
                     if is_dir child then loop rest s' else (s', WalkSkipDir)
                 | WalkErr e => (s', WalkErr e)
                 end
             end) names s1
      | _ => (s1, err1)
      end
  end.

(** The loop of [walk] over the names of a directory. *)
Fixpoint walk_names (path : string) (names : list (string * node)) (s : S)
  : S * walkResult :=
  match names with
  | [] => (s, WalkNil)
  | (name, child) :: rest =>
      let '(s', err) := walk (Join path name) child s in
      match err with
      | WalkNil => walk_names path rest s'
      | WalkSkipDir =>
          if is_dir child then walk_names path rest s' else (s', WalkSkipDir)
      | WalkErr e => (s', WalkErr e)
      end
  end.

Definition Walk (root : string) (info : node) (s : S) : S * option error :=
  let '(s', err) := walk root info s in
  match err with
  | WalkErr e => (s', Some e)
  | _ => (s', None)
  end.
End Walk.

(** ** Types of the kustomize API ([sigs.k8s.io/kustomize/api/types]) *)

Module kustypes.

Record Image : Type := mkImage {
  Name : string;
  NewName : string;
  NewTag : string;
  Digest : string
}.

Record FieldSpec : Type := mkFieldSpec {
  Path : string;
  CreateIfNotPresent : bool
}.

(** The fields of the build configuration that the generator reads or
    sets; the type meta is the API version and the kind. *)
Record Kustomization : Type := mkKustomization {
  APIVersion : string;
  Kind : string;
  Namespace : string;
  Resources : list string;
  Transformers : list string;
  Images : list Image
}.

Definition KustomizationVersion : string := "kustomize.config.k8s.io/v1beta1".
Definition KustomizationKind : string := "Kustomization".

Inductive LoadRestrictions : Type :=
| LoadRestrictionsUnknown
| LoadRestrictionsRootOnly
| LoadRestrictionsNone.

Inductive PluginRestrictions : Type :=
| PluginRestrictionsUnknown
| PluginRestrictionsBuiltinsOnly
| PluginRestrictionsNone.

Record PluginConfig : Type := mkPluginConfig {
  pluginRestrictions : PluginRestrictions
}.

End kustypes.

(** ** Options of the build engine ([sigs.k8s.io/kustomize/api/krusty]) *)

Module krusty.

Record Options : Type := mkOptions {
  UseKyaml : bool;
  DoLegacyResourceSort : bool;
  LoadRestrictions : kustypes.LoadRestrictions;
  AddManagedbyLabel : bool;
  DoPrune : bool;
  PluginConfig : kustypes.PluginConfig;
  AllowResourceIdChanges : bool
}.

End krusty.

(** [konfig.DisabledPluginConfig()]: only the builtin plugins may run. *)
Definition DisabledPluginConfig : kustypes.PluginConfig :=
  kustypes.mkPluginConfig kustypes.PluginRestrictionsBuiltinsOnly.

(** ** The Kustomization object of the controller ([api/v1beta1]) *)

Module kustomizev1.

Record Image : Type := mkImage {
  Name : string;
  NewName : string;
  NewTag : string
}.

Record PostBuild : Type := mkPostBuild {
  Substitute : gmap string string
}.

Record KustomizationSpec : Type := mkSpec {
  Prune : bool;
  TargetNamespace : string;
  Images : list Image;
  PostBuild_ : option PostBuild
}.

Record Kustomization : Type := mkKustomization {
  GetName : string;
  GetNamespace : string;
  Spec : KustomizationSpec
}.

End kustomizev1.

(** The document [generateLabelTransformer] writes. *)
Record LabelTransformer : Type := mkLabelTransformer {
  ApiVersion : string;
  Kind : string;
  MetadataName : string;
  Labels : gmap string string;
  FieldSpecs : list kustypes.FieldSpec
}.

(** ** What the generator calls outside the repository

    The YAML codec, the decoder of Kubernetes documents, the build engine
    and the hash are libraries; the generator is verified against any
    implementation of them.  [Group] is [kustomizev1.GroupVersion.Group],
    declared in the API package. *)
Class Externals : Type := {
  ResMap : Type;
  Group : string;
  filepath_Abs : string -> result string;
  SliceFromBytes : string -> result unit;
  yaml_Marshal : kustypes.Kustomization -> result string;
  yaml_Unmarshal : string -> kustypes.Kustomization -> result kustypes.Kustomization;
  yaml_Marshal_lt : LabelTransformer -> result string;
  krusty_Run : krusty.Options -> FS -> string -> result ResMap;
  AsYaml : ResMap -> result string;
  sha1_Sum : string -> string
}.

(** [fmt.Sprintf("%x", bytes)]: two lower-case hexadecimal digits a byte. *)
Definition hex_digit (n : N) : ascii :=
  match n with
  | 0 => "0" | 1 => "1" | 2 => "2" | 3 => "3" | 4 => "4" | 5 => "5"
  | 6 => "6" | 7 => "7" | 8 => "8" | 9 => "9" | 10 => "a" | 11 => "b"
  | 12 => "c" | 13 => "d" | 14 => "e" | _ => "f"
  end%N%char.

Fixpoint hex (bytes : string) : string :=
  match bytes with
  | EmptyString => EmptyString
  | String c rest =>
      let n := N_of_ascii c in
      String (hex_digit (N.div n 16)) (String (hex_digit (N.modulo n 16)) (hex rest))
  end.

(** ** Variable expansion ([github.com/drone/envsubst]) *)

Definition is_name_char (c : ascii) : bool :=
  let n := nat_of_ascii c in
  ((65 <=? n) && (n <=? 90)) || ((97 <=? n) && (n <=? 122))
  || ((48 <=? n) && (n <=? 57)) || (n =? 95).

Definition snoc (s : string) (c : ascii) : string := s +:+ String c EmptyString.

(** Where the expansion stands in the text: in plain text, in the name
    after a dollar sign and an opening brace, or in the default after the
    colon and equals sign. *)
Inductive evalMode : Type :=
| InText
| InName (name : string)
| InDefault (name default : string).

Definition errMalformed : error := ErrExternal "unable to parse variable name".

Definition prepend (s : string) (r : result string) : result string :=
  match r with
  | Ok t => Ok (s +:+ t)
  | Err e => Err e
  end.

(** Modelled from the spec: [envsubst.Eval], of a library outside the
    repository.  It expands [${name}] to the mapping of the name and
    [${name:=default}] to the mapping of the name or, where that is empty,
    to the default, all across the text; every other character stays as it
    is; an expansion that is not closed or whose name is empty or holds
    other characters than letters, digits and underscores is malformed and
    an error. *)
Fixpoint eval_from (mapping : string -> string) (mode : evalMode) (s : string)
  : result string :=
  match s with
  | EmptyString =>
      match mode with
      | InText => Ok EmptyString
      | _ => Err errMalformed
      end
  | String c rest =>
      match mode with
      | InText =>
          if Ascii.eqb c "$" then
            match rest with
            | String "{" rest' => eval_from mapping (InName EmptyString) rest'
            | _ => prepend (String c EmptyString) (eval_from mapping InText rest)
            end
          else prepend (String c EmptyString) (eval_from mapping InText rest)
      | InName name =>
          if Ascii.eqb c "}" then
            if String.eqb name EmptyString then Err errMalformed
            else prepend (mapping name) (eval_from mapping InText rest)
          else if Ascii.eqb c ":" then
            match rest with
            | String "=" rest' =>
                if String.eqb name EmptyString then Err errMalformed
                else eval_from mapping (InDefault name EmptyString) rest'
            | _ => Err errMalformed
            end
          else if is_name_char c then eval_from mapping (InName (snoc name c)) rest
          else Err errMalformed
      | InDefault name default =>
          if Ascii.eqb c "}" then
            prepend (if String.eqb (mapping name) EmptyString
                     then default else mapping name)
                    (eval_from mapping InText rest)
          else eval_from mapping (InDefault name (snoc default c)) rest
      end
  end.

Definition envsubst_Eval (s : string) (mapping : string -> string) : result string :=
  eval_from mapping InText s.

(** ** The generator *)

(** Functions that read or write the staging directory take it and give it
    back with their result. *)
Definition M (A : Type) : Type := FS -> FS * result A.

Definition ret {A} (a : A) : M A := fun fs => (fs, Ok a).

Definition bind {A B} (c : M A) (k : A -> M B) : M B :=
  fun fs =>
    match c fs with
    | (fs', Ok a) => k a fs'
    | (fs', Err e) => (fs', Err e)
    end.

(** A pure call that may fail. *)
Definition lift {A} (r : result A) : M A := fun fs => (fs, r).

(** A call that returns only a Go [error]. *)
Definition check (c : FS -> FS * option error) : M unit :=
  fun fs =>
    match c fs with
    | (fs', None) => (fs', Ok tt)
    | (fs', Some e) => (fs', Err e)
    end.

(** [fmt.Errorf("<prefix>: %w", err)] on the error path. *)
Definition wrap {A} (prefix : string) (c : M A) : M A :=
  fun fs =>
    match c fs with
    | (fs', Err e) => (fs', Err (ErrWrap prefix e))
    | r => r
    end.

Notation "'do' x <- c ; k" := (bind c (fun x => k))
  (at level 10, x name, c at level 100, k at level 200).

Record KustomizeGenerator : Type := mkGenerator {
  kustomization : kustomizev1.Kustomization
}.

Definition NewGenerator (k : kustomizev1.Kustomization) : KustomizeGenerator :=
  mkGenerator k.

Definition checkKustomizeImageExists (images : list kustypes.Image) (imageName : string)
  : bool * Z :=
  (fix go (images : list kustypes.Image) (i : Z) : bool * Z :=
     match images with
     | [] => (false, (-1)%Z)
     | image :: rest =>
         if String.eqb imageName (kustypes.Name image) then (true, i)
         else go rest (i + 1)%Z
     end) images 0%Z.

(** The kustomization whose type meta is set and nothing else. *)
Definition emptyKustomization : kustypes.Kustomization :=
  kustypes.mkKustomization kustypes.KustomizationVersion kustypes.KustomizationKind
                           EmptyString [] [] [].

(** [runPostBuildActions] runs actions on the multi-doc YAML manifest
    generated by kustomize build.  [EvalFn] is the expansion function. *)
Definition runPostBuildActionsWith
    (EvalFn : string -> (string -> string) -> result string)
    (k : kustomizev1.Kustomization) (manifests : string) : result string :=
  match kustomizev1.PostBuild_ (kustomizev1.Spec k) with
  | None => Ok manifests
  | Some postBuild =>
      let vars := kustomizev1.Substitute postBuild in
      if bool_decide (0 < size vars) then
        match EvalFn manifests (fun s => default EmptyString (vars !! s)) with
        | Err e => Err (ErrWrap "variable substitution failed" e)
        | Ok output => Ok output
        end
      else Ok manifests
  end.

Definition runPostBuildActions := runPostBuildActionsWith envsubst_Eval.

Section Generator.
Context `{E : Externals}.

(** Modelled from the spec: [selectorLabels] is defined in the garbage
    collector of the package, outside this file; it gives the selector
    labels, the name and the namespace of the owner, under the keys the
    controller's test reads them from. *)
Definition selectorLabels (name namespace : string) : gmap string string :=
  <[Group +:+ "/name" := name]> (<[Group +:+ "/namespace" := namespace]> ∅).

(** Modelled from the spec: [gcLabels] is defined in the garbage collector
    of the package, outside this file; it gives the selector labels and
    the generation-token label. *)
Definition gcLabels (name namespace checksum : string) : gmap string string :=
  <[Group +:+ "/checksum" := checksum]> (selectorLabels name namespace).

(** [buildKustomization] wraps [krusty.MakeKustomizer] with the settings of
    the controller. *)
Definition buildOptions : krusty.Options :=
  {| krusty.UseKyaml := false;
     krusty.DoLegacyResourceSort := true;
     krusty.LoadRestrictions := kustypes.LoadRestrictionsNone;
     krusty.AddManagedbyLabel := false;
     krusty.DoPrune := false;
     krusty.PluginConfig := DisabledPluginConfig;
     krusty.AllowResourceIdChanges := false |}.

Definition buildKustomization (fs : FS) (dirPath : string) : result ResMap :=
  krusty_Run buildOptions fs dirPath.

(** The walk function of the scan in [generateKustomization]; [paths] is
    the variable it appends to. *)
Definition scanFn (base path : string) (info : node) (paths : list string)
  : list string * walkResult :=
  if String.eqb path base then (paths, WalkNil)
  else match info with
       | Dir entries =>
           if has_kfile entries then (paths ++ [path], WalkSkipDir)
           else (paths, WalkNil)
       | File fContents =>
           if negb (containsString [".yaml"; ".yml"] (Ext path)) then (paths, WalkNil)
           else match SliceFromBytes fContents with
                | Err e =>
                    (paths,
                     WalkErr (ErrWrap ("failed to decode Kubernetes YAML from " +:+ path) e))
                | Ok _ => (paths ++ [path], WalkNil)
                end
       end.

Definition scan (fs : FS) (base : string) : list string * option error :=
  Walk (scanFn base) base (Dir fs) [].

Definition generateKustomization (dirPath : string) : M unit :=
  fun fs =>
    if has_kfile fs then (fs, Ok tt)
    else
      (do abs <- lift (filepath_Abs dirPath);
       do files <- (fun fs => match scan fs abs with
                              | (_, Some e) => (fs, Err e)
                              | (paths, None) => (fs, Ok paths)
                              end);
       do _ <- check (fs_WriteFile dirPath DefaultKustomizationFileName EmptyString);
       let resources := map (fun file => strings_Replace1 file abs ".") files in
       let kus :=
         {| kustypes.APIVersion := kustypes.KustomizationVersion;
            kustypes.Kind := kustypes.KustomizationKind;
            kustypes.Namespace := EmptyString;
            kustypes.Resources := resources;
            kustypes.Transformers := [];
            kustypes.Images := [] |} in
       do kd <- lift (yaml_Marshal kus);
       check (fs_WriteFile dirPath DefaultKustomizationFileName kd)) fs.

Definition checksum (kg : KustomizeGenerator) (dirPath : string) : M string :=
  do _ <- wrap "kustomize create failed" (generateKustomization dirPath);
  do m <- wrap "kustomize build failed" (fun fs => (fs, buildKustomization fs dirPath));
  do resources <- wrap "kustomize build failed" (lift (AsYaml m));
  do resources <- wrap "post-build actions failed"
                       (lift (runPostBuildActions (kustomization kg) resources));
  ret (hex (sha1_Sum resources)).

(** The document of the label transformer for a token. *)
Definition labelTransformer (kg : KustomizeGenerator) (checksum : string)
  : LabelTransformer :=
  let k := kustomization kg in
  let labels :=
    if kustomizev1.Prune (kustomizev1.Spec k)
    then gcLabels (kustomizev1.GetName k) (kustomizev1.GetNamespace k) checksum
    else selectorLabels (kustomizev1.GetName k) (kustomizev1.GetNamespace k) in
  {| ApiVersion := "builtin";
     Kind := "LabelTransformer";
     MetadataName := kustomizev1.GetName k;
     Labels := labels;
     FieldSpecs := [kustypes.mkFieldSpec "metadata/labels" true] |}.

Definition generateLabelTransformer (kg : KustomizeGenerator) (checksum dirPath : string)
  : M unit :=
  do data <- lift (yaml_Marshal_lt (labelTransformer kg checksum));
  check (fs_WriteFile dirPath transformerFileName data).

(** The step of [WriteFile] on the transformer list of the configuration. *)
Definition addTransformer (transformers : list string) : list string :=
  match transformers with
  | [] => [transformerFileName]
  | _ =>
      if existsb (fun transformer => String.eqb transformer transformerFileName)
                 transformers
      then transformers
      else transformers ++ [transformerFileName]
  end.

(** The loop of [WriteFile] over the image overrides of the spec. *)
Fixpoint overrideImages (overrides : list kustomizev1.Image)
    (images : list kustypes.Image) : list kustypes.Image :=
  match overrides with
  | [] => images
  | image :: rest =>
      let newImage :=
        {| kustypes.Name := kustomizev1.Name image;
           kustypes.NewName := kustomizev1.NewName image;
           kustypes.NewTag := kustomizev1.NewTag image;
           kustypes.Digest := EmptyString |} in
      let '(exists_, index) :=
        checkKustomizeImageExists images (kustomizev1.Name image) in
      overrideImages rest
        (if exists_ then <[Z.to_nat index := newImage]> images
         else images ++ [newImage])
  end.

(** What [WriteFile] does to the configuration it has read. *)
Definition amendKustomization (kg : KustomizeGenerator) (kus : kustypes.Kustomization)
  : kustypes.Kustomization :=
  let spec := kustomizev1.Spec (kustomization kg) in
  {| kustypes.APIVersion := kustypes.APIVersion kus;
     kustypes.Kind := kustypes.Kind kus;
     kustypes.Namespace :=
       if String.eqb (kustomizev1.TargetNamespace spec) EmptyString
       then kustypes.Namespace kus
       else kustomizev1.TargetNamespace spec;
     kustypes.Resources := kustypes.Resources kus;
     kustypes.Transformers := addTransformer (kustypes.Transformers kus);
     kustypes.Images := overrideImages (kustomizev1.Images spec) (kustypes.Images kus) |}.

(** The body of [WriteFile]; its last statement returns the token together
    with the error of the final write. *)
Definition writeFileSteps (kg : KustomizeGenerator) (dirPath : string)
  : M (string * option error) :=
  do checksum <- checksum kg dirPath;
  do _ <- generateLabelTransformer kg checksum dirPath;
  do data <- (fun fs => (fs, fs_ReadFile dirPath DefaultKustomizationFileName fs));
  do kus <- lift (yaml_Unmarshal data emptyKustomization);
  do kd <- lift (yaml_Marshal (amendKustomization kg kus));
  fun fs =>
    let '(fs', err) := fs_WriteFile dirPath DefaultKustomizationFileName kd fs in
    (fs', Ok (checksum, err)).

(** [WriteFile] returns the token and a Go error: the empty string with
    the error of a step that failed. *)
Definition WriteFile (kg : KustomizeGenerator) (dirPath : string) (fs : FS)
  : FS * (string * option error) :=
  match writeFileSteps kg dirPath fs with
  | (fs', Ok r) => (fs', r)
  | (fs', Err e) => (fs', (EmptyString, Some e))
  end.

End Generator.

(** ** Notions used to state the properties of the scan *)

(** The YAML-like files: those whose extension the scan accepts. *)
Definition is_yaml (path : string) : bool :=
  containsString [".yaml"; ".yml"] (Ext path).

(** A directory that holds a recognized build configuration file. *)
Definition is_kdir (n : node) : bool :=
  match n with
  | Dir entries => has_kfile entries
  | File _ => false
  end.

(** The nodes below the directory [info] at [path] that the walk of the
    scan comes to, in its order, when no walk function fails: every entry
    of a directory it lists, and below an entry only when that is a
    directory without a build configuration file. *)
Fixpoint visited (path : string) (info : node) {struct info} : list (string * node) :=
  match info with
  | File _ => []
  | Dir names =>
      (fix each (names : list (string * node)) : list (string * node) :=
         match names with
         | [] => []
         | (name, child) :: rest =>
             (Join path name, child)
               :: (if is_kdir child then [] else visited (Join path name) child)
               ++ each rest
         end) names
  end.

(** The visited nodes whose path the scan keeps when it succeeds. *)
Definition kept (v : string * node) : bool :=
  match v.2 with
  | Dir entries => has_kfile entries
  | File _ => is_yaml v.1
  end.

(** Two trees that differ at most inside directories that hold a build
    configuration file (not the root, which the scan never tests). *)
Fixpoint same_outside_kdirs (a b : node) {struct a} : Prop :=
  match a, b with
  | File d, File d' => d = d'
  | Dir ea, Dir eb =>
      (fix each (ea eb : list (string * node)) : Prop :=
         match ea, eb with
         | [], [] => True
         | (na, xa) :: ra, (nb, xb) :: rb =>
             na = nb
             /\ (if is_kdir xa then is_kdir xb = true
                 else is_kdir xb = false /\ same_outside_kdirs xa xb)
             /\ each ra rb
         | _, _ => False
         end) ea eb
  | _, _ => False
  end.

(** The walk function of the scan run over a list of nodes in turn, up to
    the first error. *)
Fixpoint collect `{E : Externals} (base : string) (nodes : list (string * node))
    (paths : list string) : list string * walkResult :=
  match nodes with
  | [] => (paths, WalkNil)
  | (path, info) :: rest =>
      match scanFn base path info paths with
      | (paths', WalkErr e) => (paths', WalkErr e)
      | (paths', _) => collect base rest paths'
      end
  end.

(** ** Notions used to state the properties of the substitution *)

Fixpoint all_chars (p : ascii -> bool) (s : string) : bool :=
  match s with
  | EmptyString => true
  | String c rest => p c && all_chars p rest
  end.

(** A variable name: letters, digits and underscores, at least one. *)
Definition is_name (s : string) : bool :=
  negb (String.eqb s EmptyString) && all_chars is_name_char s.

(** A text without a closing brace. *)
Definition no_closing_brace (s : string) : bool :=
  all_chars (fun c => negb (Ascii.eqb c "}")) s.

(** What the substitution map gives for a name: [vars[name]], the empty
    string for a name that is not mapped. *)
Definition value_of (vars : gmap string string) (name : string) : string :=
  default EmptyString (vars !! name).

(** The variables the object declares, none without a post-build part. *)
Definition substitutions (k : kustomizev1.Kustomization) : gmap string string :=
  match kustomizev1.PostBuild_ (kustomizev1.Spec k) with
  | Some postBuild => kustomizev1.Substitute postBuild
  | None => ∅
  end.

(** An object that declares the variables [vars] and nothing else. *)
Definition substituting (vars : gmap string string) : kustomizev1.Kustomization :=
  kustomizev1.mkKustomization EmptyString EmptyString
    (kustomizev1.mkSpec false EmptyString [] (Some (kustomizev1.mkPostBuild vars))).

(** ** Notions used to state the contract of the build engine *)

(** The options the engine has to be run with: the legacy sort of the
    resources and not the kyaml tree, no load restrictions, builtin plugins
    only and no changes of resource ids. *)
Definition invocationContract (o : krusty.Options) : bool :=
  krusty.DoLegacyResourceSort o
  && negb (krusty.UseKyaml o)
  && match krusty.LoadRestrictions o with
     | kustypes.LoadRestrictionsNone => true
     | _ => false
     end
  && match kustypes.pluginRestrictions (krusty.PluginConfig o) with
     | kustypes.PluginRestrictionsBuiltinsOnly => true
     | _ => false
     end
  && negb (krusty.AllowResourceIdChanges o).

(** The same libraries with another build engine. *)
Definition with_engine (E : Externals)
    (run : krusty.Options -> FS -> string -> result (@ResMap E)) : Externals :=
  {| ResMap := @ResMap E;
     Group := @Group E;
     filepath_Abs := @filepath_Abs E;
     SliceFromBytes := @SliceFromBytes E;
     yaml_Marshal := @yaml_Marshal E;
     yaml_Unmarshal := @yaml_Unmarshal E;
     yaml_Marshal_lt := @yaml_Marshal_lt E;
     krusty_Run := run;
     AsYaml := @AsYaml E;
     sha1_Sum := @sha1_Sum E |}.

(** An engine that refuses to run outside the contract. *)
Definition guarded_run (E : Externals) (o : krusty.Options) (fs : FS) (dirPath : string)
  : result (@ResMap E) :=
  if invocationContract o then @krusty_Run E o fs dirPath
  else Err (ErrExternal "options outside the contract").


(** ** Notions used to state the properties of the image overrides *)

(** The image that the loop of [WriteFile] makes of an override. *)
Definition toImage (image : kustomizev1.Image) : kustypes.Image :=
  {| kustypes.Name := kustomizev1.Name image;
     kustypes.NewName := kustomizev1.NewName image;
     kustypes.NewTag := kustomizev1.NewTag image;
     kustypes.Digest := EmptyString |}.

(** One turn of the loop of [WriteFile] over the image overrides. *)
Definition overrideImage (image : kustomizev1.Image) (images : list kustypes.Image)
  : list kustypes.Image :=
  let '(exists_, index) := checkKustomizeImageExists images (kustomizev1.Name image) in
  if exists_ then <[Z.to_nat index := toImage image]> images
  else images ++ [toImage image].

(** An image of the configuration that goes by a name. *)
Definition named (imageName : string) (image : kustypes.Image) : Prop :=
  imageName = kustypes.Name image.

#[global] Instance named_dec imageName image : Decision (named imageName image).
Proof. unfold named. apply _. Defined.

(** ** Notions used to state the determinism of the checksum *)



(** ** Notions used to state the properties of the scanned paths *)

(** What the paths below a directory begin with: the directory and a
    separator, and the root directory alone. *)
Definition dirPrefix (dir : string) : string :=
  if String.eqb dir sep then dir else dir +:+ sep.

(** ** Notions used to state the properties of the token *)

(** A lower-case hexadecimal digit. *)
Definition is_lower_hex (c : ascii) : bool :=
  let n := nat_of_ascii c in
  ((48 <=? n) && (n <=? 57)) || ((97 <=? n) && (n <=? 102)).

(** ** An instance of the external libraries

    A line-oriented codec for the two documents, a decoder that refuses
    tabs, an engine that concatenates the manifests at the root of the
    directory and an eight-bit sum in place of the hash: enough to run the
    generator on concrete directories. *)
Module Sample.

Definition nl : string := String "010"%char EmptyString.

Fixpoint lines_from (cur : string) (s : string) : list string :=
  match s with
  | EmptyString => if String.eqb cur EmptyString then [] else [cur]
  | String c rest =>
      if Ascii.eqb c "010" then cur :: lines_from EmptyString rest
      else lines_from (snoc cur c) rest
  end.

Definition lines (s : string) : list string := lines_from EmptyString s.

Definition strip_prefix (p s : string) : option string :=
  if String.prefix p s
  then Some (String.substring (String.length p) (String.length s - String.length p) s)
  else None.

Fixpoint has_tab (s : string) : bool :=
  match s with
  | EmptyString => false
  | String c rest => Ascii.eqb c "009" || has_tab rest
  end.

Definition bullets (l : list string) : string :=
  String.concat EmptyString (map (fun x => "- " +:+ x +:+ nl) l).

Definition marshal (kus : kustypes.Kustomization) : result string :=
  Ok ("apiVersion: " +:+ kustypes.APIVersion kus +:+ nl
      +:+ "kind: " +:+ kustypes.Kind kus +:+ nl
      +:+ "namespace: " +:+ kustypes.Namespace kus +:+ nl
      +:+ "resources:" +:+ nl +:+ bullets (kustypes.Resources kus)
      +:+ "transformers:" +:+ nl +:+ bullets (kustypes.Transformers kus)).

Inductive section : Type := NoSection | InResources | InTransformers.

Fixpoint unmarshal_lines (ls : list string) (sec : section)
    (kus : kustypes.Kustomization) : kustypes.Kustomization :=
  match ls with
  | [] => kus
  | l :: rest =>
      if String.eqb l "resources:" then unmarshal_lines rest InResources kus
      else if String.eqb l "transformers:" then unmarshal_lines rest InTransformers kus
      else match strip_prefix "namespace: " l, strip_prefix "- " l, sec with
           | Some ns, _, _ =>
               unmarshal_lines rest NoSection
                 (kustypes.mkKustomization (kustypes.APIVersion kus) (kustypes.Kind kus)
                    ns (kustypes.Resources kus) (kustypes.Transformers kus)
                    (kustypes.Images kus))
           | None, Some x, InResources =>
               unmarshal_lines rest sec
                 (kustypes.mkKustomization (kustypes.APIVersion kus) (kustypes.Kind kus)
                    (kustypes.Namespace kus) (kustypes.Resources kus ++ [x])
                    (kustypes.Transformers kus) (kustypes.Images kus))
           | None, Some x, InTransformers =>
               unmarshal_lines rest sec
                 (kustypes.mkKustomization (kustypes.APIVersion kus) (kustypes.Kind kus)
                    (kustypes.Namespace kus) (kustypes.Resources kus)
                    (kustypes.Transformers kus ++ [x]) (kustypes.Images kus))
           | _, _, _ => unmarshal_lines rest sec kus
           end
  end.

Definition unmarshal (data : string) (kus : kustypes.Kustomization)
  : result kustypes.Kustomization :=
  if has_tab data then Err (ErrExternal "yaml: found character that cannot start any token")
  else Ok (unmarshal_lines (lines data) NoSection kus).

Definition marshal_lt (lt : LabelTransformer) : result string :=
  Ok ("apiVersion: " +:+ ApiVersion lt +:+ nl
      +:+ "kind: " +:+ Kind lt +:+ nl
      +:+ "metadata:" +:+ nl +:+ "  name: " +:+ MetadataName lt +:+ nl
      +:+ "labels:" +:+ nl
      +:+ String.concat EmptyString
            (map (fun kv => "  " +:+ kv.1 +:+ ": " +:+ kv.2 +:+ nl)
                 (map_to_list (Labels lt)))
      +:+ "fieldSpecs:" +:+ nl
      +:+ String.concat EmptyString
            (map (fun f => "- path: " +:+ kustypes.Path f +:+ nl) (FieldSpecs lt))).

Definition decode (data : string) : result unit :=
  if has_tab data then Err (ErrExternal "yaml: found character that cannot start any token")
  else Ok tt.

Definition is_manifest (entry : string * node) : bool :=
  is_yaml entry.1
  && negb (containsString (transformerFileName :: RecognizedKustomizationFileNames) entry.1).

Definition run (_ : krusty.Options) (fs : FS) (_ : string) : result string :=
  if has_kfile fs
  then Ok (String.concat "---" (omap (fun entry =>
                                        match entry.2 with
                                        | File data =>
                                            if is_manifest entry then Some data else None
                                        | Dir _ => None
                                        end) fs))
  else Err (ErrExternal "unable to find one of the kustomization files").

Fixpoint sum8 (s : string) (acc : nat) : nat :=
  match s with
  | EmptyString => acc
  | String c rest => sum8 rest ((acc + nat_of_ascii c) mod 256)
  end.

Definition digest (s : string) : string :=
  String (ascii_of_nat (sum8 s 0)) EmptyString.

#[export] Instance externals : Externals :=
  {| ResMap := string;
     Group := "kustomize.toolkit.fluxcd.io";
     filepath_Abs := Ok;
     SliceFromBytes := decode;
     yaml_Marshal := marshal;
     yaml_Unmarshal := unmarshal;
     yaml_Marshal_lt := marshal_lt;
     krusty_Run := run;
     AsYaml := Ok;
     sha1_Sum := digest |}.

(** The objects of the controller's test: pruning on, one variable. *)
Definition spec : kustomizev1.KustomizationSpec :=
  {| kustomizev1.Prune := true;
     kustomizev1.TargetNamespace := EmptyString;
     kustomizev1.Images := [];
     kustomizev1.PostBuild_ :=
       Some (kustomizev1.mkPostBuild {[ "region" := "eu-central-1" ]}) |}.

Definition kg : KustomizeGenerator :=
  NewGenerator (kustomizev1.mkKustomization "podinfo" "default" spec).

Definition namespace_yaml : string :=
  "apiVersion: v1" +:+ nl +:+ "kind: Namespace" +:+ nl
  +:+ "metadata:" +:+ nl +:+ "  name: test" +:+ nl.

Definition service_account_yaml : string :=
  "apiVersion: v1" +:+ nl +:+ "kind: ServiceAccount" +:+ nl
  +:+ "metadata:" +:+ nl +:+ "  name: test" +:+ nl +:+ "  namespace: test" +:+ nl
  +:+ "  labels:" +:+ nl +:+ "    environment: ${env:=dev}" +:+ nl
  +:+ "    region: ${region}" +:+ nl.

Definition staging : FS :=
  [ ("namespace.yaml", File namespace_yaml);
    ("service-account.yaml", File service_account_yaml) ].


Definition tab : string := String "009"%char EmptyString.

(** A directory with an overlay of its own, which holds a file that does
    not decode, next to a manifest. *)
Definition nested : FS :=
  [ ("apps", Dir [ ("broken.yaml", File ("kind:" +:+ tab +:+ "Namespace"));
                   ("kustomization.yaml", File ("resources:" +:+ nl)) ]);
    ("namespace.yaml", File namespace_yaml) ].

(** The same with the overlay emptied but for its configuration, which is
    under another recognized name. *)
Definition nested_emptied : FS :=
  [ ("apps", Dir [ ("Kustomization", File ("resources:" +:+ nl)) ]);
    ("namespace.yaml", File namespace_yaml) ].

(** A manifest that decodes and one that does not. *)
Definition broken : FS :=
  [ ("apps", Dir [ ("kustomization.yaml", File ("resources:" +:+ nl)) ]);
    ("namespace.yaml", File namespace_yaml);
    ("service-account.yaml", File ("kind:" +:+ tab +:+ "ServiceAccount")) ].

(** A configuration under the second recognized name. *)
Definition with_yml : FS :=
  [ ("kustomization.yml", File ("resources:" +:+ nl +:+ "- namespace.yaml" +:+ nl));
    ("namespace.yaml", File namespace_yaml) ].

(** A configuration under the default name that pins an image by digest. *)
Definition with_default : FS :=
  [ ("kustomization.yaml", File ("resources:" +:+ nl +:+ "- namespace.yaml" +:+ nl));
    ("namespace.yaml", File namespace_yaml) ].

Definition podinfo : kustypes.Image :=
  kustypes.mkImage "ghcr.io/stefanprodan/podinfo" EmptyString "5.0.0" "sha256:1f2e".

Definition redis : kustypes.Image :=
  kustypes.mkImage "redis" "docker.io/redis" "6.0.1" EmptyString.

Definition podinfo_to_501 : kustomizev1.Image :=
  kustomizev1.mkImage "ghcr.io/stefanprodan/podinfo" EmptyString "5.0.1".

Definition podinfo_to_502 : kustomizev1.Image :=
  kustomizev1.mkImage "ghcr.io/stefanprodan/podinfo" "quay.io/podinfo" "5.0.2".

Definition nginx_to_119 : kustomizev1.Image :=
  kustomizev1.mkImage "nginx" EmptyString "1.19".





End Sample.

(** * Properties *)

#[local] Arguments String.append !_ _ / : simpl nomatch.

(** ** The staging directory *)

Lemma fs_lookup_put_eq name x entries :
  fs_lookup name (fs_put name x entries) = Some x.
Proof.
  induction entries as [|[n y] rest IH]; simpl.
  - by rewrite String.eqb_refl.
  - destruct (String.eqb n name) eqn:Hn; simpl.
    + by rewrite String.eqb_refl.
    + destruct (String.ltb name n); simpl.
      * by rewrite String.eqb_refl.
      * by rewrite Hn.
Qed.

Lemma fs_lookup_put_ne name name' x entries :
  name <> name' ->
  fs_lookup name' (fs_put name x entries) = fs_lookup name' entries.
Proof.
  intros Hne. apply String.eqb_neq in Hne.
  induction entries as [|[n y] rest IH]; simpl.
  - by rewrite Hne.
  - destruct (String.eqb n name) eqn:Hn; simpl.
    + apply String.eqb_eq in Hn. subst n. by rewrite Hne.
    + destruct (String.ltb name n); simpl.
      * by rewrite Hne.
      * by rewrite IH.
Qed.

Lemma fs_WriteFile_lookup_ne dirPath name name' data fs :
  name <> name' ->
  fs_lookup name' (fs_WriteFile dirPath name data fs).1 = fs_lookup name' fs.
Proof.
  intros Hne. unfold fs_WriteFile.
  destruct (fs_lookup name fs) as [[d|es]|]; simpl;
    auto using fs_lookup_put_ne.
Qed.

Lemma fs_WriteFile_ok dirPath name data fs fs' :
  fs_WriteFile dirPath name data fs = (fs', None) ->
  fs' = fs_put name (File data) fs /\ fs_lookup name fs' = Some (File data).
Proof.
  unfold fs_WriteFile.
  destruct (fs_lookup name fs) as [[d|es]|]; intros [= <-];
    auto using fs_lookup_put_eq.
Qed.

Lemma fs_WriteFile_err dirPath name data fs fs' e :
  fs_WriteFile dirPath name data fs = (fs', Some e) -> fs' = fs.
Proof.
  unfold fs_WriteFile.
  destruct (fs_lookup name fs) as [[d|es]|]; by intros [= <-].
Qed.

Lemma has_kfile_intro entries kfilename :
  In kfilename RecognizedKustomizationFileNames ->
  is_file entries kfilename = true ->
  has_kfile entries = true.
Proof.
  intros Hin Hfile. unfold has_kfile. apply existsb_exists. eauto.
Qed.

Lemma transformer_not_default : transformerFileName <> DefaultKustomizationFileName.
Proof. discriminate. Qed.

Section Properties.
Context `{E : Externals}.

(** ** An existing build configuration *)

Lemma generateKustomization_skip dirPath fs :
  has_kfile fs = true -> generateKustomization dirPath fs = (fs, Ok tt).
Proof. intros H. unfold generateKustomization. by rewrite H. Qed.

(** C5: when the root of the staging directory holds a file under one of
    the recognized names of the build configuration, [generateKustomization]
    returns without an error and the staging directory is as it was: no
    file is created or overwritten. *)
Theorem generateKustomization_existing_untouched dirPath fs kfilename :
  In kfilename RecognizedKustomizationFileNames ->
  is_file fs kfilename = true ->
  generateKustomization dirPath fs = (fs, Ok tt).
Proof.
  intros Hin Hfile. apply generateKustomization_skip. eauto using has_kfile_intro.
Qed.

(** C10: when the root holds a build configuration file under a recognized
    name other than the default one and no file under the default name,
    the synthesis is skipped, [WriteFile] returns the empty token with an
    error, and there is still no file under the default name. *)
Theorem WriteFile_non_default_name_fails kg dirPath fs kfilename :
  In kfilename RecognizedKustomizationFileNames ->
  kfilename <> DefaultKustomizationFileName ->
  is_file fs kfilename = true ->
  is_file fs DefaultKustomizationFileName = false ->
  generateKustomization dirPath fs = (fs, Ok tt)
  /\ (exists e, (WriteFile kg dirPath fs).2 = (EmptyString, Some e))
  /\ is_file (WriteFile kg dirPath fs).1 DefaultKustomizationFileName = false.
Proof.
  intros Hin Hne Hfile Hdef.
  assert (Hk : has_kfile fs = true) by eauto using has_kfile_intro.
  split; [by apply generateKustomization_skip|].
  unfold WriteFile, writeFileSteps, checksum, bind, wrap, lift, ret.
  rewrite (generateKustomization_skip dirPath fs Hk).
  destruct (buildKustomization fs dirPath) as [m|e]; [|by eauto].
  destruct (AsYaml m) as [resources|e]; [|by eauto].
  destruct (runPostBuildActions (kustomization kg) resources) as [out|e]; [|by eauto].
  unfold generateLabelTransformer, bind, lift, check.
  destruct (yaml_Marshal_lt _) as [data|e]; [|by eauto].
  destruct (fs_WriteFile dirPath transformerFileName data fs) as [fs2 [e|]] eqn:Hw.
  - apply fs_WriteFile_err in Hw. subst fs2. eauto.
  - assert (Hl : fs_lookup DefaultKustomizationFileName fs2
                 = fs_lookup DefaultKustomizationFileName fs).
    { rewrite <- (fs_WriteFile_lookup_ne dirPath transformerFileName
                    DefaultKustomizationFileName data fs transformer_not_default).
      by rewrite Hw. }
    assert (Hdef2 : is_file fs2 DefaultKustomizationFileName = false).
    { unfold is_file in *. by rewrite Hl. }
    unfold fs_ReadFile.
    destruct (fs_lookup DefaultKustomizationFileName fs2) as [[d|es]|] eqn:Hl2.
    + unfold is_file in Hdef2. rewrite Hl2 in Hdef2. discriminate.
    + eauto.
    + eauto.
Qed.

(** ** The transformer list *)

Lemma existsb_transformer transformers :
  existsb (fun transformer => String.eqb transformer transformerFileName) transformers
  = true <-> In transformerFileName transformers.
Proof.
  rewrite existsb_exists. split.
  - intros (x & Hin & Heq). apply String.eqb_eq in Heq. by subst x.
  - intros Hin. exists transformerFileName. by rewrite String.eqb_refl.
Qed.

Lemma addTransformer_present transformers :
  In transformerFileName transformers -> addTransformer transformers = transformers.
Proof.
  intros Hin. unfold addTransformer. destruct transformers as [|t ts]; [done|].
  apply existsb_transformer in Hin. by rewrite Hin.
Qed.

Lemma addTransformer_absent transformers :
  ~ In transformerFileName transformers ->
  addTransformer transformers = transformers ++ [transformerFileName].
Proof.
  intros Hnin. unfold addTransformer. destruct transformers as [|t ts]; [done|].
  destruct (existsb _ (t :: ts)) eqn:Hex; [|done].
  apply existsb_transformer in Hex. contradiction.
Qed.

Lemma addTransformer_In transformers :
  In transformerFileName (addTransformer transformers).
Proof.
  destruct (in_dec string_dec transformerFileName transformers) as [Hin|Hnin].
  - by rewrite addTransformer_present.
  - rewrite addTransformer_absent by done. apply in_or_app. right. by left.
Qed.

(** C6, as the code has it: a list that holds the name of the transformer
    file is left as it is and any other list gets it appended once, so that
    the step is idempotent, its result holds the name, and it holds it once
    when the list held it at most once and as often as the list did
    otherwise: the step adds no second occurrence. *)
Theorem addTransformer_idempotent (transformers : list string) :
  addTransformer transformers
  = (if in_dec string_dec transformerFileName transformers
     then transformers else transformers ++ [transformerFileName])
  /\ addTransformer (addTransformer transformers) = addTransformer transformers
  /\ In transformerFileName (addTransformer transformers)
  /\ count_occ string_dec (addTransformer transformers) transformerFileName
     = Nat.max 1 (count_occ string_dec transformers transformerFileName).
Proof.
  split; [|split; [|split]].
  - destruct (in_dec _ _ _); auto using addTransformer_present, addTransformer_absent.
  - apply addTransformer_present, addTransformer_In.
  - apply addTransformer_In.
  - destruct (in_dec string_dec transformerFileName transformers) as [Hin|Hnin].
    + rewrite addTransformer_present by done.
      apply (count_occ_In string_dec) in Hin. lia.
    + rewrite addTransformer_absent by done.
      rewrite count_occ_app. simpl.
      apply (count_occ_not_In string_dec) in Hnin. rewrite Hnin.
      destruct (string_dec transformerFileName transformerFileName); [done|congruence].
Qed.

(** C6, as it is stated, fails: a list that names the transformer file
    twice is left with both occurrences. *)
Lemma addTransformer_keeps_duplicates :
  addTransformer [transformerFileName; transformerFileName]
  = [transformerFileName; transformerFileName]
  /\ count_occ string_dec
       (addTransformer [transformerFileName; transformerFileName])
       transformerFileName = 2
  /\ ~ NoDup (addTransformer [transformerFileName; transformerFileName]).
Proof.
  split; [reflexivity|split; [reflexivity|]].
  intros Hnd. change (addTransformer _) with [transformerFileName; transformerFileName] in Hnd.
  apply NoDup_cons_1_1 in Hnd. apply Hnd. by left.
Qed.

(** ** The build engine *)

(** C9: [buildKustomization] runs the engine once, with options that
    enable the legacy sort and not the kyaml tree, lift the load
    restrictions, allow builtin plugins only and forbid changes of resource
    ids; an engine that answers only to such options gives the same
    build. *)
Theorem buildKustomization_invocation_contract
    (run : krusty.Options -> FS -> string -> result ResMap) fs dirPath :
  (forall o, invocationContract o = true ->
             run o fs dirPath = @krusty_Run E o fs dirPath) ->
  @buildKustomization (with_engine E run) fs dirPath = @buildKustomization E fs dirPath
  /\ @buildKustomization E fs dirPath = @krusty_Run E buildOptions fs dirPath
  /\ krusty.DoLegacyResourceSort buildOptions = true
  /\ krusty.UseKyaml buildOptions = false
  /\ krusty.LoadRestrictions buildOptions = kustypes.LoadRestrictionsNone
  /\ krusty.PluginConfig buildOptions = DisabledPluginConfig
  /\ kustypes.pluginRestrictions (krusty.PluginConfig buildOptions)
     = kustypes.PluginRestrictionsBuiltinsOnly
  /\ krusty.AllowResourceIdChanges buildOptions = false.
Proof.
  intros Hrun. split; [|by repeat split].
  unfold buildKustomization. simpl. by apply Hrun.
Qed.

(** ** The label transformer *)

Lemma append_inj_l (s a b : string) : s +:+ a = s +:+ b -> a = b.
Proof. induction s as [|c s IH]; simpl; [done|]. intros [= H]. auto. Qed.

Lemma label_keys_distinct :
  Group +:+ "/name" <> Group +:+ "/namespace"
  /\ Group +:+ "/checksum" <> Group +:+ "/name"
  /\ Group +:+ "/checksum" <> Group +:+ "/namespace".
Proof.
  repeat split; intros H; apply append_inj_l in H; discriminate.
Qed.

Lemma selectorLabels_lookup name namespace :
  selectorLabels name namespace !! (Group +:+ "/name") = Some name
  /\ selectorLabels name namespace !! (Group +:+ "/namespace") = Some namespace
  /\ selectorLabels name namespace !! (Group +:+ "/checksum") = None.
Proof.
  destruct label_keys_distinct as (H1 & H2 & H3). unfold selectorLabels.
  split; [|split].
  - by rewrite lookup_insert_eq.
  - rewrite lookup_insert_ne by done. by rewrite lookup_insert_eq.
  - rewrite !lookup_insert_ne by done. apply lookup_empty.
Qed.

Lemma gcLabels_lookup name namespace checksum :
  gcLabels name namespace checksum !! (Group +:+ "/name") = Some name
  /\ gcLabels name namespace checksum !! (Group +:+ "/namespace") = Some namespace
  /\ gcLabels name namespace checksum !! (Group +:+ "/checksum") = Some checksum.
Proof.
  destruct label_keys_distinct as (H1 & H2 & H3).
  destruct (selectorLabels_lookup name namespace) as (L1 & L2 & L3).
  unfold gcLabels. split; [|split].
  - by rewrite lookup_insert_ne.
  - by rewrite lookup_insert_ne.
  - by rewrite lookup_insert_eq.
Qed.

(** C4: the label transformer that [generateLabelTransformer] writes
    carries the name and the namespace of the owner as selector labels, the
    generation token exactly when pruning is enabled, and one field spec,
    for the path metadata/labels, that creates the field when it is not
    there. *)
Theorem generateLabelTransformer_labels kg checksum :
  let k := kustomization kg in
  let lt := labelTransformer kg checksum in
  Labels lt !! (Group +:+ "/name") = Some (kustomizev1.GetName k)
  /\ Labels lt !! (Group +:+ "/namespace") = Some (kustomizev1.GetNamespace k)
  /\ Labels lt !! (Group +:+ "/checksum")
     = (if kustomizev1.Prune (kustomizev1.Spec k) then Some checksum else None)
  /\ FieldSpecs lt
     = [ {| kustypes.Path := "metadata/labels"; kustypes.CreateIfNotPresent := true |} ]
  /\ forall dirPath fs,
       generateLabelTransformer kg checksum dirPath fs
       = match yaml_Marshal_lt lt with
         | Ok data => check (fs_WriteFile dirPath transformerFileName data) fs
         | Err e => (fs, Err e)
         end.
Proof.
  intros k lt.
  assert (Hgen : forall dirPath fs,
    generateLabelTransformer kg checksum dirPath fs
    = match yaml_Marshal_lt lt with
      | Ok data => check (fs_WriteFile dirPath transformerFileName data) fs
      | Err e => (fs, Err e)
      end).
  { intros dirPath fs. unfold generateLabelTransformer, bind, lift. fold lt.
    by destruct (yaml_Marshal_lt lt). }
  subst lt. unfold labelTransformer in *. fold k in Hgen |- *. simpl.
  destruct (kustomizev1.Prune (kustomizev1.Spec k)).
  - destruct (gcLabels_lookup (kustomizev1.GetName k) (kustomizev1.GetNamespace k) checksum)
      as (L1 & L2 & L3).
    by repeat split.
  - destruct (selectorLabels_lookup (kustomizev1.GetName k) (kustomizev1.GetNamespace k))
      as (L1 & L2 & L3).
    by repeat split.
Qed.

(** ** The substitution *)

Lemma append_snoc (s t : string) (c : ascii) : snoc s c +:+ t = s +:+ String c t.
Proof. unfold snoc. induction s as [|a s IH]; simpl; [done|]. by rewrite IH. Qed.

Lemma append_empty_r (s : string) : s +:+ EmptyString = s.
Proof. induction s as [|a s IH]; simpl; [done|]. by rewrite IH. Qed.

Lemma append_assoc (s t u : string) : (s +:+ t) +:+ u = s +:+ (t +:+ u).
Proof. induction s as [|a s IH]; simpl; [done|]. by rewrite IH. Qed.

Lemma name_char_plain (c : ascii) :
  is_name_char c = true -> Ascii.eqb c "}" = false /\ Ascii.eqb c ":" = false.
Proof.
  destruct c as [[] [] [] [] [] [] [] []]; vm_compute; intros H; try discriminate H;
    by split.
Qed.

Section Eval.
Variable mapping : string -> string.

(** The characters of a name are gathered up to the closing brace. *)
Lemma eval_from_name (name acc rest : string) :
  all_chars is_name_char name = true ->
  String.eqb (acc +:+ name) EmptyString = false ->
  eval_from mapping (InName acc) (name +:+ String "}" rest)
  = prepend (mapping (acc +:+ name)) (eval_from mapping InText rest).
Proof.
  revert acc. induction name as [|c name IH]; intros acc Hchars Hne.
  - rewrite append_empty_r in *. simpl. by rewrite Hne.
  - simpl in Hchars. apply andb_prop in Hchars as [Hc Hchars].
    destruct (name_char_plain c Hc) as [Hb Hcolon].
    cbn [String.append eval_from]. rewrite Hb, Hcolon, Hc.
    rewrite <- (append_snoc acc name c) in Hne |- *. by apply IH.
Qed.

(** The characters of a default are gathered up to the closing brace. *)
Lemma eval_from_default (name default acc rest : string) :
  no_closing_brace default = true ->
  eval_from mapping (InDefault name acc) (default +:+ String "}" rest)
  = prepend (if String.eqb (mapping name) EmptyString
             then acc +:+ default else mapping name)
            (eval_from mapping InText rest).
Proof.
  revert acc. induction default as [|c default IH]; intros acc Hd.
  - rewrite append_empty_r. reflexivity.
  - simpl in Hd. apply andb_prop in Hd as [Hc Hd]. apply negb_true_iff in Hc.
    cbn [String.append eval_from]. rewrite Hc.
    rewrite <- (append_snoc acc default c). by apply IH.
Qed.

Lemma eval_from_name_default (name default acc rest : string) :
  all_chars is_name_char name = true ->
  String.eqb (acc +:+ name) EmptyString = false ->
  no_closing_brace default = true ->
  eval_from mapping (InName acc) (name +:+ ":=" +:+ default +:+ String "}" rest)
  = prepend (if String.eqb (mapping (acc +:+ name)) EmptyString
             then default else mapping (acc +:+ name))
            (eval_from mapping InText rest).
Proof.
  revert acc. induction name as [|c name IH]; intros acc Hchars Hne Hd.
  - rewrite append_empty_r in *. cbn [String.append eval_from].
    change (Ascii.eqb ":" "}") with false. change (Ascii.eqb ":" ":") with true.
    cbn iota. rewrite Hne. by rewrite eval_from_default.
  - simpl in Hchars. apply andb_prop in Hchars as [Hc Hchars].
    destruct (name_char_plain c Hc) as [Hb Hcolon].
    cbn [String.append eval_from]. rewrite Hb, Hcolon, Hc.
    rewrite <- (append_snoc acc name c) in Hne |- *. by apply IH.
Qed.

(** An expansion that is never closed is malformed. *)
Lemma eval_from_unclosed_default (s name default : string) :
  no_closing_brace s = true ->
  eval_from mapping (InDefault name default) s = Err errMalformed.
Proof.
  revert default. induction s as [|c s IH]; intros default Hs; [done|].
  simpl in Hs. apply andb_prop in Hs as [Hc Hs]. apply negb_true_iff in Hc.
  cbn [eval_from]. rewrite Hc. by apply IH.
Qed.

Lemma eval_from_unclosed_name (s name : string) :
  no_closing_brace s = true ->
  eval_from mapping (InName name) s = Err errMalformed.
Proof.
  revert name. induction s as [|c s IH]; intros name Hs; [done|].
  simpl in Hs. apply andb_prop in Hs as [Hc Hs]. apply negb_true_iff in Hc.
  cbn [eval_from]. rewrite Hc.
  destruct (Ascii.eqb c ":").
  - destruct s as [|c' s']; [done|].
    destruct (Ascii.eqb c' "=") eqn:Heq.
    + apply Ascii.eqb_eq in Heq. subst c'.
      destruct (String.eqb name EmptyString); [done|].
      simpl in Hs. by apply eval_from_unclosed_default.
    + destruct c' as [[] [] [] [] [] [] [] []]; try discriminate Heq; done.
  - destruct (is_name_char c); [|done]. by apply IH.
Qed.

Lemma envsubst_Eval_name (name rest : string) :
  is_name name = true ->
  envsubst_Eval ("${" +:+ name +:+ String "}" rest) mapping
  = prepend (mapping name) (envsubst_Eval rest mapping).
Proof.
  unfold is_name, envsubst_Eval. intros H. apply andb_prop in H as [Hne Hchars].
  apply negb_true_iff in Hne.
  transitivity (eval_from mapping (InName EmptyString) (name +:+ String "}" rest));
    [reflexivity|].
  by rewrite eval_from_name.
Qed.

Lemma envsubst_Eval_default (name default rest : string) :
  is_name name = true ->
  no_closing_brace default = true ->
  envsubst_Eval ("${" +:+ name +:+ ":=" +:+ default +:+ String "}" rest) mapping
  = prepend (if String.eqb (mapping name) EmptyString then default else mapping name)
            (envsubst_Eval rest mapping).
Proof.
  unfold is_name, envsubst_Eval. intros H Hd. apply andb_prop in H as [Hne Hchars].
  apply negb_true_iff in Hne.
  transitivity (eval_from mapping (InName EmptyString)
                  (name +:+ ":=" +:+ default +:+ String "}" rest));
    [reflexivity|].
  by rewrite eval_from_name_default.
Qed.

Lemma envsubst_Eval_plain (c : ascii) (rest : string) :
  c <> "$"%char ->
  envsubst_Eval (String c rest) mapping
  = prepend (String c EmptyString) (envsubst_Eval rest mapping).
Proof.
  intros Hc. apply Ascii.eqb_neq in Hc. unfold envsubst_Eval.
  cbn [eval_from]. by rewrite Hc.
Qed.

Lemma envsubst_Eval_unclosed (s : string) :
  no_closing_brace s = true ->
  envsubst_Eval ("${" +:+ s) mapping = Err errMalformed.
Proof.
  intros Hs.
  transitivity (eval_from mapping (InName EmptyString) s); [reflexivity|].
  by apply eval_from_unclosed_name.
Qed.

(** A dollar sign that opens no expansion stays. *)
Lemma envsubst_Eval_dollar (rest : string) :
  (forall rest', rest <> String "{" rest') ->
  envsubst_Eval (String "$" rest) mapping
  = prepend "$" (envsubst_Eval rest mapping).
Proof.
  intros Hrest. unfold envsubst_Eval. cbn [eval_from].
  change (Ascii.eqb "$" "$") with true. cbn iota.
  destruct rest as [|c rest']; [done|].
  destruct c as [[] [] [] [] [] [] [] []]; try reflexivity.
  by destruct (Hrest rest').
Qed.

(** An expansion that gives a result is closed: the default runs up to a
    closing brace, the name up to a closing brace or to the colon and
    equals sign before the default. *)
Lemma eval_from_default_inv (name acc body out : string) :
  eval_from mapping (InDefault name acc) body = Ok out ->
  exists default rest,
    no_closing_brace default = true /\ body = default +:+ String "}" rest.
Proof.
  revert acc. induction body as [|c body IH]; intros acc; [done|].
  cbn [eval_from]. destruct (Ascii.eqb c "}") eqn:Hc.
  - apply Ascii.eqb_eq in Hc. subst c. intros _. by exists EmptyString, body.
  - intros (default & rest & Hd & ->)%IH. exists (String c default), rest.
    split; [|done]. unfold no_closing_brace in *. cbn [all_chars]. by rewrite Hc.
Qed.

Lemma eval_from_name_inv (acc body out : string) :
  eval_from mapping (InName acc) body = Ok out ->
  exists name,
    all_chars is_name_char name = true
    /\ String.eqb (acc +:+ name) EmptyString = false
    /\ ((exists rest, body = name +:+ String "}" rest)
        \/ (exists default rest,
              no_closing_brace default = true
              /\ body = name +:+ ":=" +:+ default +:+ String "}" rest)).
Proof.
  revert acc. induction body as [|c body IH]; intros acc; [done|].
  cbn [eval_from]. destruct (Ascii.eqb c "}") eqn:Hb.
  - apply Ascii.eqb_eq in Hb. subst c.
    destruct (String.eqb acc EmptyString) eqn:Hacc; [done|]. intros _.
    exists EmptyString. rewrite append_empty_r. split; [done|]. split; [done|].
    left. by exists body.
  - destruct (Ascii.eqb c ":") eqn:Hcolon.
    + apply Ascii.eqb_eq in Hcolon. subst c.
      destruct body as [|c' body']; [done|].
      destruct (Ascii.eqb c' "=") eqn:Heq.
      * apply Ascii.eqb_eq in Heq. subst c'.
        destruct (String.eqb acc EmptyString) eqn:Hacc; [done|].
        intros (default & rest & Hd & ->)%eval_from_default_inv.
        exists EmptyString. rewrite append_empty_r. split; [done|]. split; [done|].
        right. by exists default, rest.
      * destruct c' as [[] [] [] [] [] [] [] []]; try discriminate Heq; done.
    + destruct (is_name_char c) eqn:Hc; [|done].
      intros (name & Hchars & Hne & Hbody)%IH. exists (String c name).
      rewrite append_snoc in Hne. split; [by cbn [all_chars]; rewrite Hc|].
      split; [done|].
      destruct Hbody as [(rest & ->)|(default & rest & Hd & ->)].
      * left. by exists rest.
      * right. by exists default, rest.
Qed.

(** A text after a dollar sign and an opening brace that is neither a name
    and a closing brace nor a name, a colon, an equals sign and a default
    up to a closing brace is malformed. *)
Lemma envsubst_Eval_malformed (body : string) :
  (forall name rest, is_name name = true -> body <> name +:+ "}" +:+ rest) ->
  (forall name default rest,
     is_name name = true -> no_closing_brace default = true ->
     body <> name +:+ ":=" +:+ default +:+ "}" +:+ rest) ->
  exists e, envsubst_Eval ("${" +:+ body) mapping = Err e.
Proof.
  intros Hname Hdefault.
  assert (Heq : envsubst_Eval ("${" +:+ body) mapping
                = eval_from mapping (InName EmptyString) body) by reflexivity.
  rewrite Heq. destruct (eval_from mapping (InName EmptyString) body) as [out|e] eqn:Hev;
    [|by exists e].
  apply eval_from_name_inv in Hev as (name & Hchars & Hne & Hbody).
  simpl in Hne.
  assert (Hn : is_name name = true) by (unfold is_name; by rewrite Hne, Hchars).
  destruct Hbody as [(rest & ->)|(default & rest & Hd & ->)].
  - by destruct (Hname name rest Hn).
  - by destruct (Hdefault name default rest Hn Hd).
Qed.

End Eval.

Lemma runPostBuildActions_declared k manifests :
  0 < size (substitutions k) ->
  runPostBuildActions k manifests
  = match envsubst_Eval manifests (value_of (substitutions k)) with
    | Ok output => Ok output
    | Err e => Err (ErrWrap "variable substitution failed" e)
    end.
Proof.
  unfold runPostBuildActions, runPostBuildActionsWith, substitutions, value_of.
  destruct (kustomizev1.PostBuild_ _) as [pb|].
  - intros Hsz. rewrite bool_decide_eq_true_2 by done. by destruct (envsubst_Eval _ _).
  - rewrite map_size_empty. lia.
Qed.

Lemma runPostBuildActions_step k (v text rest : string) :
  0 < size (substitutions k) ->
  envsubst_Eval text (value_of (substitutions k))
  = prepend v (envsubst_Eval rest (value_of (substitutions k))) ->
  runPostBuildActions k text = prepend v (runPostBuildActions k rest).
Proof.
  intros Hsz Heval. rewrite !runPostBuildActions_declared by done. rewrite Heval.
  by destruct (envsubst_Eval rest _).
Qed.

Lemma size_pos_non_empty (vars : gmap string string) : vars <> ∅ <-> 0 < size vars.
Proof.
  rewrite <- map_size_empty_iff. lia.
Qed.

Lemma runPostBuildActions_undeclared k manifests :
  substitutions k = ∅ -> runPostBuildActions k manifests = Ok manifests.
Proof.
  unfold runPostBuildActions, runPostBuildActionsWith, substitutions.
  destruct (kustomizev1.PostBuild_ _) as [pb|]; [|done].
  intros ->. by rewrite map_size_empty.
Qed.

(** Whatever the expansion function is, it is handed [vars[s]], where a
    name mapped to the empty string and a name that is not mapped look the
    same. *)
Lemma runPostBuildActionsWith_empty_value
    (EvalFn : string -> (string -> string) -> result string)
    (vars : gmap string string) (name manifests : string) :
  (forall s f g, (forall x, f x = g x) -> EvalFn s f = EvalFn s g) ->
  vars !! name = Some EmptyString ->
  delete name vars <> ∅ ->
  runPostBuildActionsWith EvalFn (substituting vars) manifests
  = runPostBuildActionsWith EvalFn (substituting (delete name vars)) manifests.
Proof.
  intros Hext Hname Hrest. unfold runPostBuildActionsWith. simpl.
  assert (Hvars : vars <> ∅) by (intros ->; by rewrite lookup_empty in Hname).
  apply size_pos_non_empty in Hvars, Hrest.
  rewrite !bool_decide_eq_true_2 by done.
  rewrite (Hext manifests _ (fun s => default EmptyString (delete name vars !! s))); [done|].
  intros x. destruct (decide (name = x)) as [<-|Hne].
  - by rewrite Hname, lookup_delete_eq.
  - by rewrite lookup_delete_ne.
Qed.

(** C3, as the code has it: with a substitution map that is not empty,
    [${name}] expands to the value of the name, which is empty for a name
    that is not mapped; [${name:=default}] expands to the value of the name
    when that is not empty and to the default when the name is not mapped
    or mapped to the empty string; every other character stays, a dollar
    sign that opens no expansion among them; a dollar sign and brace
    followed by anything else than one of the two forms, an expansion that
    is not closed for one, is an error.  These cases cover every text.  An object that declares no
    variables has its text returned as it is.  The map of region to
    eu-central-1 turns the service account of the controller's test into
    one with the environment dev and the region eu-central-1. *)
Theorem runPostBuildActions_substitution (k k0 : kustomizev1.Kustomization) :
  substitutions k <> ∅ ->
  substitutions k0 = ∅ ->
  (forall name rest, is_name name = true ->
     runPostBuildActions k ("${" +:+ name +:+ "}" +:+ rest)
     = prepend (value_of (substitutions k) name) (runPostBuildActions k rest))
  /\ (forall name default rest,
        is_name name = true -> no_closing_brace default = true ->
        runPostBuildActions k ("${" +:+ name +:+ ":=" +:+ default +:+ "}" +:+ rest)
        = prepend (if String.eqb (value_of (substitutions k) name) EmptyString
                   then default else value_of (substitutions k) name)
                  (runPostBuildActions k rest))
  /\ (forall c rest, c <> "$"%char ->
        runPostBuildActions k (String c rest)
        = prepend (String c EmptyString) (runPostBuildActions k rest))
  /\ (forall rest, (forall rest', rest <> String "{" rest') ->
        runPostBuildActions k (String "$" rest)
        = prepend "$" (runPostBuildActions k rest))
  /\ runPostBuildActions k EmptyString = Ok EmptyString
  /\ (forall s, no_closing_brace s = true ->
        exists e, runPostBuildActions k ("${" +:+ s)
                  = Err (ErrWrap "variable substitution failed" e))
  /\ (forall body,
        (forall name rest, is_name name = true -> body <> name +:+ "}" +:+ rest) ->
        (forall name default rest,
           is_name name = true -> no_closing_brace default = true ->
           body <> name +:+ ":=" +:+ default +:+ "}" +:+ rest) ->
        exists e, runPostBuildActions k ("${" +:+ body)
                  = Err (ErrWrap "variable substitution failed" e))
  /\ (forall manifests, runPostBuildActions k0 manifests = Ok manifests)
  /\ runPostBuildActions (substituting {[ "region" := "eu-central-1" ]})
       ("    environment: ${env:=dev}" +:+ Sample.nl
        +:+ "    region: ${region}" +:+ Sample.nl)
     = Ok ("    environment: dev" +:+ Sample.nl
           +:+ "    region: eu-central-1" +:+ Sample.nl).
Proof.
  intros Hk Hk0. apply size_pos_non_empty in Hk.
  split; [|split; [|split; [|split; [|split; [|split; [|split; [|split]]]]]]].
  - intros name rest Hname. apply runPostBuildActions_step; [done|].
    by apply envsubst_Eval_name.
  - intros name default rest Hname Hd. apply runPostBuildActions_step; [done|].
    by apply envsubst_Eval_default.
  - intros c rest Hc. apply runPostBuildActions_step; [done|].
    by apply envsubst_Eval_plain.
  - intros rest Hrest. apply runPostBuildActions_step; [done|].
    by apply envsubst_Eval_dollar.
  - by rewrite runPostBuildActions_declared.
  - intros s Hs. exists errMalformed. rewrite runPostBuildActions_declared by done.
    by rewrite envsubst_Eval_unclosed.
  - intros body Hname Hdefault.
    destruct (envsubst_Eval_malformed (value_of (substitutions k)) body Hname Hdefault)
      as [e He].
    exists e. rewrite runPostBuildActions_declared by done. by rewrite He.
  - intros manifests. by apply runPostBuildActions_undeclared.
  - vm_compute. reflexivity.
Qed.

(** C3, as it is stated, fails: a name mapped to the empty string, with a
    default, expands to the default and not to the mapped value. *)
Lemma runPostBuildActions_empty_value_takes_default :
  let vars : gmap string string := {[ "env" := EmptyString ]} in
  vars <> ∅
  /\ vars !! "env" = Some EmptyString
  /\ runPostBuildActions (substituting vars) "${env:=dev}" = Ok "dev"
  /\ runPostBuildActions (substituting vars) "${env:=dev}" <> Ok EmptyString.
Proof.
  intros vars. split; [|split; [|split]].
  - intros H. apply (f_equal (fun m : gmap string string => m !! "env")) in H.
    subst vars. by rewrite lookup_singleton_eq, lookup_empty in H.
  - subst vars. by rewrite lookup_singleton_eq.
  - vm_compute. reflexivity.
  - vm_compute. discriminate.
Qed.

(** ** The scan *)

Lemma node_induction (P : node -> Prop) :
  (forall data, P (File data)) ->
  (forall entries, Forall (fun entry => P entry.2) entries -> P (Dir entries)) ->
  forall n, P n.
Proof.
  intros HFile HDir. fix IH 1. intros [data|entries].
  - apply HFile.
  - apply HDir. induction entries as [|[name child] rest IHrest].
    + constructor.
    + constructor; [apply IH | apply IHrest].
Qed.

Lemma length_append (s t : string) :
  String.length (s +:+ t) = String.length s + String.length t.
Proof. induction s as [|c s IH]; simpl; [done|]. by rewrite IH. Qed.

Lemma Join_longer (dir name : string) : String.length dir < String.length (Join dir name).
Proof.
  unfold Join, sep.
  destruct (String.eqb dir "/" && negb (String.eqb name EmptyString)) eqn:Hroot.
  - apply andb_prop in Hroot as [_ Hname]. rewrite length_append.
    destruct name; [discriminate|]. simpl. lia.
  - rewrite !length_append. simpl. lia.
Qed.

Lemma longer_not_base (base path : string) :
  String.length base < String.length path -> String.eqb path base = false.
Proof. intros Hlen. apply String.eqb_neq. intros ->. lia. Qed.

Lemma walk_Dir {S : Type} (walkFn : string -> node -> S -> S * walkResult)
    (path : string) (names : list (string * node)) (s : S) :
  walk walkFn path (Dir names) s
  = (let '(s1, err1) := walkFn path (Dir names) s in
     match err1 with
     | WalkNil => walk_names walkFn path names s1
     | _ => (s1, err1)
     end).
Proof.
  simpl. destruct (walkFn path (Dir names) s) as [s1 [| |e]]; try reflexivity.
  clear s. revert s1. induction names as [|[name child] rest IH]; intros s1; simpl.
  - reflexivity.
  - destruct (walk walkFn (Join path name) child s1) as [s' [| |e]]; try reflexivity.
    + apply IH.
    + destruct (is_dir child); [apply IH | reflexivity].
Qed.

Lemma visited_cons (path name : string) (child : node) (rest : list (string * node)) :
  visited path (Dir ((name, child) :: rest))
  = (Join path name, child)
      :: (if is_kdir child then [] else visited (Join path name) child)
      ++ visited path (Dir rest).
Proof. reflexivity. Qed.

Lemma collect_app (base : string) (l1 l2 : list (string * node)) (paths : list string) :
  collect base (l1 ++ l2) paths
  = match collect base l1 paths with
    | (paths', WalkErr e) => (paths', WalkErr e)
    | (paths', _) => collect base l2 paths'
    end.
Proof.
  revert paths. induction l1 as [|[path info] l1 IH]; intros paths; simpl.
  - reflexivity.
  - destruct (scanFn base path info paths) as [paths' [| |e]]; auto.
Qed.

Lemma collect_no_skip (base : string) (nodes : list (string * node)) (paths : list string) :
  (collect base nodes paths).2 <> WalkSkipDir.
Proof.
  revert paths. induction nodes as [|[path info] rest IH]; intros paths; simpl.
  - discriminate.
  - destruct (scanFn base path info paths) as [paths' [| |e]]; try done; auto.
Qed.

(** What the walk function of the scan does below the root. *)
Lemma scanFn_below (base path : string) (info : node) (paths : list string) :
  String.length base < String.length path ->
  scanFn base path info paths
  = match info with
    | Dir entries =>
        if has_kfile entries then (paths ++ [path], WalkSkipDir) else (paths, WalkNil)
    | File fContents =>
        if is_yaml path
        then match SliceFromBytes fContents with
             | Err e =>
                 (paths,
                  WalkErr (ErrWrap ("failed to decode Kubernetes YAML from " +:+ path) e))
             | Ok _ => (paths ++ [path], WalkNil)
             end
        else (paths, WalkNil)
    end.
Proof.
  intros Hlen. unfold scanFn, is_yaml. rewrite (longer_not_base _ _ Hlen).
  destruct info as [fContents|entries]; [|done].
  by destruct (containsString _ _).
Qed.

(** The walk below a directory is the walk function run over the visited
    nodes. *)
Lemma walk_names_collect (base : string) (info : node) :
  forall path paths,
    String.length base <= String.length path ->
    walk_names (scanFn base) path
      (match info with Dir names => names | File _ => [] end) paths
    = collect base (visited path info) paths.
Proof.
  induction info as [data|names IH] using node_induction; intros path paths Hlen.
  - reflexivity.
  - revert paths. induction names as [|[name child] rest IHrest]; intros paths.
    + reflexivity.
    + apply Forall_cons in IH as [IHchild IHnames]. simpl in IHchild.
      specialize (IHrest IHnames).
      assert (Hq : String.length base < String.length (Join path name)).
      { pose proof (Join_longer path name). lia. }
      rewrite visited_cons. cbn [walk_names collect].
      destruct child as [fContents|entries].
      * cbn [walk is_kdir app].
        destruct (scanFn base (Join path name) (File fContents) paths)
          as [paths' [| |e]] eqn:Hfn; try reflexivity; try apply IHrest.
        rewrite scanFn_below in Hfn by done.
        destruct (is_yaml _); [destruct (SliceFromBytes _)|]; discriminate.
      * rewrite walk_Dir. cbn [is_kdir is_dir].
        rewrite (scanFn_below base (Join path name) (Dir entries)) by done.
        destruct (has_kfile entries).
        -- apply IHrest.
        -- rewrite collect_app. rewrite (IHchild (Join path name) paths) by lia.
           pose proof (collect_no_skip base (visited (Join path name) (Dir entries)) paths)
             as Hns.
           destruct (collect base (visited (Join path name) (Dir entries)) paths)
             as [paths' [| |e]]; simpl in Hns; first [done | apply IHrest].
Qed.

Lemma scan_collect (fs : FS) (base : string) :
  scan fs base
  = match collect base (visited base (Dir fs)) [] with
    | (paths, WalkErr e) => (paths, Some e)
    | (paths, _) => (paths, None)
    end.
Proof.
  unfold scan, Walk. rewrite walk_Dir. unfold scanFn at 1. rewrite String.eqb_refl.
  by rewrite (walk_names_collect base (Dir fs) base []).
Qed.

Lemma visited_longer (info : node) :
  forall path q n,
    In (q, n) (visited path info) -> String.length path < String.length q.
Proof.
  induction info as [data|names IH] using node_induction; intros path q n Hin.
  - destruct Hin.
  - induction names as [|[name child] rest IHrest]; [destruct Hin|].
    apply Forall_cons in IH as [IHchild IHnames].
    rewrite visited_cons in Hin. destruct Hin as [[= <- <-]|Hin].
    + apply Join_longer.
    + apply in_app_or in Hin as [Hin|Hin]; [|by apply IHrest].
      destruct (is_kdir child); [destruct Hin|].
      apply IHchild in Hin. pose proof (Join_longer path name). lia.
Qed.

(** The scan over nodes below the root whose YAML-like files all decode
    keeps the directories with a build configuration and those files. *)
Lemma collect_kept (base : string) (nodes : list (string * node)) :
  forall paths,
    (forall q n, In (q, n) nodes -> String.length base < String.length q) ->
    (forall q d, In (q, File d) nodes -> is_yaml q = true ->
                 is_ok (SliceFromBytes d) = true) ->
    collect base nodes paths = (paths ++ map fst (List.filter kept nodes), WalkNil).
Proof.
  induction nodes as [|[q n] rest IH]; intros paths Hlen Hdec.
  - simpl. by rewrite app_nil_r.
  - cbn [collect List.filter]. rewrite scanFn_below by (apply (Hlen q n); by left).
    assert (Hrest : forall paths',
      collect base rest paths' = (paths' ++ map fst (List.filter kept rest), WalkNil)).
    { intros paths'. apply IH.
      - intros q' n' Hin. apply (Hlen q' n'). by right.
      - intros q' d Hin. apply Hdec. by right. }
    unfold kept. cbn [fst snd]. destruct n as [d|entries].
    + destruct (is_yaml q) eqn:Hy; [|apply Hrest].
      specialize (Hdec q d (or_introl eq_refl) Hy).
      destruct (SliceFromBytes d); [|discriminate].
      rewrite Hrest. cbn [map fst]. by rewrite <- app_assoc.
    + destruct (has_kfile entries); [|apply Hrest].
      rewrite Hrest. cbn [map fst]. by rewrite <- app_assoc.
Qed.

(** The scan stops at the first YAML-like file that does not decode. *)
Lemma collect_decode_failure (base : string) (before after : list (string * node))
    (path fContents : string) (e : error) (paths : list string) :
  (forall q n, In (q, n) (before ++ (path, File fContents) :: after) ->
               String.length base < String.length q) ->
  (forall q d, In (q, File d) before -> is_yaml q = true ->
               is_ok (SliceFromBytes d) = true) ->
  is_yaml path = true ->
  SliceFromBytes fContents = Err e ->
  collect base (before ++ (path, File fContents) :: after) paths
  = (paths ++ map fst (List.filter kept before),
     WalkErr (ErrWrap ("failed to decode Kubernetes YAML from " +:+ path) e)).
Proof.
  intros Hlen Hdec Hy Herr. rewrite collect_app.
  rewrite collect_kept; [| |done].
  - cbn [collect]. rewrite scanFn_below.
    + by rewrite Hy, Herr.
    + apply (Hlen path (File fContents)). apply in_or_app. right. by left.
  - intros q n Hin. apply (Hlen q n). apply in_or_app. by left.
Qed.

(** A scan that ends without an error has kept the directories with a
    build configuration and the YAML-like files among the nodes. *)
Lemma collect_result (base : string) (nodes : list (string * node)) :
  forall paths paths',
    (forall q n, In (q, n) nodes -> String.length base < String.length q) ->
    collect base nodes paths = (paths', WalkNil) ->
    paths' = paths ++ map fst (List.filter kept nodes).
Proof.
  induction nodes as [|[q n] rest IH]; intros paths paths' Hlen Hres.
  - simpl in Hres. injection Hres as <-. by rewrite app_nil_r.
  - cbn [collect List.filter] in *.
    rewrite scanFn_below in Hres by (apply (Hlen q n); by left).
    assert (Hrest : forall q' n', In (q', n') rest ->
                                  String.length base < String.length q').
    { intros q' n' Hin. apply (Hlen q' n'). by right. }
    unfold kept. cbn [fst snd]. destruct n as [d|entries].
    + destruct (is_yaml q); [|by apply IH].
      destruct (SliceFromBytes d); [|discriminate].
      apply IH in Hres; [|done]. subst paths'. cbn [map fst]. by rewrite <- app_assoc.
    + destruct (has_kfile entries); [|by apply IH].
      apply IH in Hres; [|done]. subst paths'. cbn [map fst]. by rewrite <- app_assoc.
Qed.

Lemma visited_below (base : string) (fs : FS) :
  forall q n, In (q, n) (visited base (Dir fs)) ->
              String.length base < String.length q.
Proof. intros q n. apply visited_longer. Qed.

Lemma same_outside_cons (na nb : string) (xa xb : node) (ra rb : list (string * node)) :
  same_outside_kdirs (Dir ((na, xa) :: ra)) (Dir ((nb, xb) :: rb))
  <-> na = nb
      /\ (if is_kdir xa then is_kdir xb = true
          else is_kdir xb = false /\ same_outside_kdirs xa xb)
      /\ same_outside_kdirs (Dir ra) (Dir rb).
Proof. reflexivity. Qed.

(** The scan does not tell two trees apart that differ only inside
    directories with a build configuration. *)
Lemma same_outside_collect (base : string) (a : node) :
  forall b path paths,
    same_outside_kdirs a b ->
    String.length base <= String.length path ->
    collect base (visited path a) paths = collect base (visited path b) paths.
Proof.
  induction a as [da|ea IH] using node_induction; intros b path paths Hsame Hlen.
  - destruct b; [reflexivity|destruct Hsame].
  - destruct b as [db|eb]; [destruct Hsame|].
    revert eb paths Hsame. induction ea as [|[na xa] ra IHra]; intros eb paths Hsame.
    + destruct eb; [reflexivity|destruct Hsame].
    + destruct eb as [|[nb xb] rb]; [destruct Hsame|].
      apply same_outside_cons in Hsame as (<- & Hx & Hrest).
      apply Forall_cons in IH as [IHx IHr]. simpl in IHx.
      specialize (IHra IHr).
      assert (Hq : String.length base < String.length (Join path na)).
      { pose proof (Join_longer path na). lia. }
      rewrite !visited_cons. cbn [collect]. rewrite !scanFn_below by done.
      destruct xa as [da|ea']; destruct xb as [db|eb']; cbn [is_kdir] in *.
      * destruct Hx as [_ Hx]. simpl in Hx. subst db. cbn [app].
        destruct (is_yaml _); [destruct (SliceFromBytes da)|];
          first [reflexivity | by apply IHra].
      * destruct Hx as [_ []].
      * destruct (has_kfile ea'); [discriminate|]. destruct Hx as [_ []].
      * destruct (has_kfile ea') eqn:Ha.
        -- rewrite Hx. cbn [app]. by apply IHra.
        -- destruct Hx as [Hb Hx]. rewrite Hb. rewrite !collect_app.
           rewrite (IHx (Dir eb') (Join path na) paths Hx) by lia.
           destruct (collect base (visited (Join path na) (Dir eb')) paths)
             as [paths' [| |e]]; first [reflexivity | by apply IHra].
Qed.

(** C7: when the root holds no build configuration and the scan comes to
    a YAML-like file that does not decode, all such files before it having
    decoded, [generateKustomization] returns the error that names this
    file and the staging directory is as it was: no configuration is
    written; [WriteFile] returns this error as the failure of the
    creation. *)
Theorem generateKustomization_decode_failure
    (kg : KustomizeGenerator) (dirPath abs : string) (fs : FS)
    (before after : list (string * node)) (path fContents : string) (e : error) :
  has_kfile fs = false ->
  filepath_Abs dirPath = Ok abs ->
  visited abs (Dir fs) = before ++ (path, File fContents) :: after ->
  (forall q d, In (q, File d) before -> is_yaml q = true ->
               is_ok (SliceFromBytes d) = true) ->
  is_yaml path = true ->
  SliceFromBytes fContents = Err e ->
  let failure := ErrWrap ("failed to decode Kubernetes YAML from " +:+ path) e in
  generateKustomization dirPath fs = (fs, Err failure)
  /\ WriteFile kg dirPath fs
     = (fs, (EmptyString, Some (ErrWrap "kustomize create failed" failure))).
Proof.
  intros Hk Habs Hvis Hdec Hy Herr failure.
  assert (Hgen : generateKustomization dirPath fs = (fs, Err failure)).
  { unfold generateKustomization, bind, lift. rewrite Hk, Habs.
    rewrite scan_collect, Hvis.
    rewrite (collect_decode_failure abs before after path fContents e []); try done.
    rewrite <- Hvis. apply visited_below. }
  split; [done|].
  unfold WriteFile, writeFileSteps, checksum, bind, wrap. by rewrite Hgen.
Qed.

(** C8: when the scan succeeds, its paths are those of the visited
    directories that hold a build configuration and of the visited
    YAML-like files, in the order of the walk; each visited sub-directory
    with a build configuration is among them; the walk visits nothing
    below such a directory; and the result is the same for every tree that
    differs only inside such directories. *)
Theorem scan_kustomization_directory (fs : FS) (base : string) (paths : list string) :
  scan fs base = (paths, None) ->
  paths = map fst (List.filter kept (visited base (Dir fs)))
  /\ (forall q entries,
        In (q, Dir entries) (visited base (Dir fs)) ->
        has_kfile entries = true -> In q paths)
  /\ (forall path name entries rest,
        has_kfile entries = true ->
        visited path (Dir ((name, Dir entries) :: rest))
        = (Join path name, Dir entries) :: visited path (Dir rest))
  /\ (forall fs', same_outside_kdirs (Dir fs) (Dir fs') -> scan fs' base = (paths, None)).
Proof.
  intros Hscan. rewrite scan_collect in Hscan.
  pose proof (collect_no_skip base (visited base (Dir fs)) []) as Hns.
  destruct (collect base (visited base (Dir fs)) []) as [paths' r] eqn:Hc.
  destruct r as [| |e]; simpl in Hns; [|done|discriminate].
  injection Hscan as ->.
  apply collect_result in Hc as Hpaths; [|apply visited_below]. simpl in Hpaths.
  split; [done|split; [|split]].
  - intros q entries Hin Hk. rewrite Hpaths.
    apply (in_map fst _ (q, Dir entries)). apply filter_In. split; [done|].
    unfold kept. by simpl.
  - intros path name entries rest Hk. rewrite visited_cons. cbn [is_kdir].
    by rewrite Hk.
  - intros fs' Hsame. rewrite scan_collect.
    rewrite <- (same_outside_collect base (Dir fs) (Dir fs') base []) by done.
    by rewrite Hc.
Qed.

(** ** The generation token *)

Lemma generateKustomization_inv dirPath fs fs1 :
  generateKustomization dirPath fs = (fs1, Ok tt) ->
  (has_kfile fs = true /\ fs1 = fs)
  \/ (has_kfile fs = false
      /\ exists abs files kd,
           filepath_Abs dirPath = Ok abs
           /\ scan fs abs = (files, None)
           /\ yaml_Marshal
                {| kustypes.APIVersion := kustypes.KustomizationVersion;
                   kustypes.Kind := kustypes.KustomizationKind;
                   kustypes.Namespace := EmptyString;
                   kustypes.Resources :=
                     map (fun file => strings_Replace1 file abs ".") files;
                   kustypes.Transformers := [];
                   kustypes.Images := [] |} = Ok kd
           /\ fs1 = fs_put DefaultKustomizationFileName (File kd)
                      (fs_put DefaultKustomizationFileName (File EmptyString) fs)).
Proof.
  unfold generateKustomization. destruct (has_kfile fs) eqn:Hk.
  - intros [= <-]. by left.
  - intros Hgen. right. split; [done|]. revert Hgen. unfold bind, lift, check.
    destruct (filepath_Abs dirPath) as [abs|e] eqn:Habs; [|discriminate].
    destruct (scan fs abs) as [files [e|]] eqn:Hscan; [discriminate|].
    destruct (fs_WriteFile dirPath DefaultKustomizationFileName EmptyString fs)
      as [fs0 [e|]] eqn:Hcreate; [discriminate|].
    apply fs_WriteFile_ok in Hcreate as [-> _].
    destruct (yaml_Marshal _) as [kd|e] eqn:Hkd; [|discriminate].
    destruct (fs_WriteFile dirPath DefaultKustomizationFileName kd _)
      as [fs2 [e|]] eqn:Hwrite; [discriminate|].
    apply fs_WriteFile_ok in Hwrite as [-> _].
    intros [= <-]. by exists abs, files, kd.
Qed.

Lemma checksum_inv kg dirPath fs fs1 token :
  checksum kg dirPath fs = (fs1, Ok token) ->
  exists m resources output,
    generateKustomization dirPath fs = (fs1, Ok tt)
    /\ buildKustomization fs1 dirPath = Ok m
    /\ AsYaml m = Ok resources
    /\ runPostBuildActions (kustomization kg) resources = Ok output
    /\ token = hex (sha1_Sum output).
Proof.
  unfold checksum, bind, wrap, lift, ret.
  destruct (generateKustomization dirPath fs) as [fs0 [[]|e]]; [|discriminate].
  destruct (buildKustomization fs0 dirPath) as [m|e] eqn:Hb; [|discriminate].
  destruct (AsYaml m) as [resources|e] eqn:Hy; [|discriminate].
  destruct (runPostBuildActions (kustomization kg) resources) as [output|e] eqn:Hp;
    [|discriminate].
  intros [= <- <-]. by exists m, resources, output.
Qed.



End Properties.

(** * Further properties of the generator *)

Section Images.

Lemma imageIndex_list_find (imageName : string) (images : list kustypes.Image) (k : Z) :
  (fix go (images : list kustypes.Image) (i : Z) : bool * Z :=
     match images with
     | [] => (false, (-1)%Z)
     | image :: rest =>
         if String.eqb imageName (kustypes.Name image) then (true, i)
         else go rest (i + 1)%Z
     end) images k
  = match list_find (named imageName) images with
    | Some (j, _) => (true, (k + Z.of_nat j)%Z)
    | None => (false, (-1)%Z)
    end.
Proof.
  revert k. induction images as [|image rest IH]; intros k; [done|].
  cbn [list_find]. destruct (String.eqb imageName (kustypes.Name image)) eqn:Heq.
  - apply String.eqb_eq in Heq. rewrite decide_True by done. simpl. f_equal. lia.
  - apply String.eqb_neq in Heq. rewrite decide_False by done. rewrite IH.
    destruct (list_find (named imageName) rest) as [[j x]|]; simpl; [|done].
    f_equal. lia.
Qed.

Lemma checkKustomizeImageExists_list_find images imageName :
  checkKustomizeImageExists images imageName
  = match list_find (named imageName) images with
    | Some (j, _) => (true, Z.of_nat j)
    | None => (false, (-1)%Z)
    end.
Proof.
  unfold checkKustomizeImageExists. rewrite imageIndex_list_find.
  by destruct (list_find (named imageName) images) as [[j x]|].
Qed.

(** [checkKustomizeImageExists] finds the first image of the name: it
    returns true with the index of an image of that name before which no
    image has that name, or false and minus one when no image has it. *)
Theorem checkKustomizeImageExists_first_match
    (images : list kustypes.Image) (imageName : string) :
  match checkKustomizeImageExists images imageName with
  | (true, index) =>
      (0 <= index < Z.of_nat (length images))%Z
      /\ exists image,
           images !! Z.to_nat index = Some image
           /\ kustypes.Name image = imageName
           /\ forall j image', images !! j = Some image' -> j < Z.to_nat index ->
                               kustypes.Name image' <> imageName
  | (false, index) =>
      index = (-1)%Z
      /\ forall image, In image images -> kustypes.Name image <> imageName
  end.
Proof.
  rewrite checkKustomizeImageExists_list_find.
  destruct (list_find (named imageName) images) as [[j x]|] eqn:Hfind.
  - apply list_find_Some in Hfind as (Hj & Hx & Hbefore).
    pose proof (lookup_lt_Some _ _ _ Hj) as Hlt.
    split; [lia|]. exists x. rewrite Nat2Z.id. split; [done|]. split; [done|].
    intros i y Hy Hi Hname. by apply (Hbefore i y).
  - apply list_find_None in Hfind. split; [done|].
    intros image Hin Hname. rewrite Forall_forall in Hfind.
    apply (Hfind image); [by apply list_elem_of_In|done].
Qed.

Lemma overrideImages_cons image overrides images :
  overrideImages (image :: overrides) images
  = overrideImages overrides (overrideImage image images).
Proof.
  cbn [overrideImages]. unfold overrideImage.
  by destruct (checkKustomizeImageExists images (kustomizev1.Name image)).
Qed.

Lemma overrideImage_list_find image images :
  overrideImage image images
  = match list_find (named (kustomizev1.Name image)) images with
    | Some (j, _) => <[j := toImage image]> images
    | None => images ++ [toImage image]
    end.
Proof.
  unfold overrideImage. rewrite checkKustomizeImageExists_list_find.
  destruct (list_find _ images) as [[j x]|]; [|done]. by rewrite Nat2Z.id.
Qed.

(** One turn keeps the names of the images where they are and adds the
    name of the override at the end when no image had it. *)
Lemma overrideImage_names image images :
  map kustypes.Name (overrideImage image images)
  = map kustypes.Name images
    ++ (if decide (kustomizev1.Name image ∈ map kustypes.Name images)
        then [] else [kustomizev1.Name image]).
Proof.
  rewrite overrideImage_list_find.
  destruct (list_find _ images) as [[j x]|] eqn:Hfind.
  - apply list_find_Some in Hfind as (Hj & Hx & _). unfold named in Hx.
    rewrite decide_True.
    + rewrite app_nil_r. change map with (@fmap list _) at 1 2.
      rewrite list_fmap_insert. simpl. rewrite Hx.
      apply list_insert_id. by rewrite list_lookup_fmap, Hj.
    + rewrite Hx. apply list_elem_of_In, in_map, list_elem_of_In.
      by eapply list_elem_of_lookup_2.
  - apply list_find_None in Hfind. rewrite decide_False.
    + by rewrite map_app.
    + intros Hin. apply list_elem_of_In, in_map_iff in Hin as (x & Hx & Hin).
      rewrite Forall_forall in Hfind. apply (Hfind x); [by apply list_elem_of_In|done].
Qed.

Lemma list_find_insert_other {A} (P : A -> Prop) `{!forall x, Decision (P x)}
    (l : list A) (j : nat) (x y : A) :
  l !! j = Some x -> ~ P x -> ~ P y -> list_find P (<[j := y]> l) = list_find P l.
Proof.
  revert j. induction l as [|a l IH]; intros j Hj Hx Hy; [done|].
  destruct j as [|j]; simpl in Hj.
  - injection Hj as ->. cbn [list_find insert list_insert].
    by rewrite !decide_False by done.
  - cbn [list_find insert list_insert]. destruct (decide (P a)); [done|].
    f_equal. by apply IH.
Qed.

Lemma list_find_snoc_other {A} (P : A -> Prop) `{!forall x, Decision (P x)}
    (l : list A) (y : A) :
  ~ P y -> list_find P (l ++ [y]) = list_find P l.
Proof.
  intros Hy. induction l as [|a l IH]; cbn [list_find app].
  - by rewrite decide_False.
  - destruct (decide (P a)); [done|]. by rewrite IH.
Qed.

Lemma overrideImage_find_same image images :
  exists j, list_find (named (kustomizev1.Name image)) (overrideImage image images)
            = Some (j, toImage image).
Proof.
  rewrite overrideImage_list_find.
  destruct (list_find _ images) as [[j x]|] eqn:Hfind.
  - apply list_find_Some in Hfind as (Hj & Hx & Hbefore).
    exists j. apply list_find_Some. split; [|split].
    + apply list_lookup_insert_eq. by eapply lookup_lt_Some.
    + reflexivity.
    + intros i z Hz Hi. rewrite list_lookup_insert_ne in Hz by lia. by eapply Hbefore.
  - apply list_find_None in Hfind. exists (length images).
    apply list_find_Some. split; [|split].
    + by rewrite lookup_app_r, Nat.sub_diag.
    + reflexivity.
    + intros i z Hz Hi. rewrite lookup_app_l in Hz by done.
      rewrite Forall_forall in Hfind. apply Hfind. by eapply list_elem_of_lookup_2.
Qed.

Lemma overrideImage_find_other imageName image images :
  imageName <> kustomizev1.Name image ->
  list_find (named imageName) (overrideImage image images)
  = list_find (named imageName) images.
Proof.
  intros Hne. rewrite overrideImage_list_find.
  destruct (list_find (named (kustomizev1.Name image)) images) as [[j x]|] eqn:Hfind.
  - apply list_find_Some in Hfind as (Hj & Hx & _). unfold named in Hx.
    apply (list_find_insert_other _ _ j x); [done| |done].
    unfold named. congruence.
  - by apply list_find_snoc_other.
Qed.

Lemma overrideImage_lookup_other image images i x :
  images !! i = Some x ->
  kustomizev1.Name image <> kustypes.Name x ->
  overrideImage image images !! i = Some x.
Proof.
  intros Hi Hne. rewrite overrideImage_list_find.
  destruct (list_find _ images) as [[j y]|] eqn:Hfind.
  - apply list_find_Some in Hfind as (Hj & Hy & _). unfold named in Hy.
    rewrite list_lookup_insert_ne; [done|]. intros ->. congruence.
  - rewrite lookup_app_l; [done|]. by eapply lookup_lt_Some.
Qed.

Lemma overrideImages_names_added
    (overrides : list kustomizev1.Image) (images : list kustypes.Image) :
  exists added,
    map kustypes.Name (overrideImages overrides images)
    = map kustypes.Name images ++ added
    /\ NoDup added
    /\ (forall n, n ∈ added <->
                  n ∈ map kustomizev1.Name overrides /\ n ∉ map kustypes.Name images)
    /\ (NoDup (map kustypes.Name images) ->
        NoDup (map kustypes.Name (overrideImages overrides images))).
Proof.
  revert images. induction overrides as [|image overrides IH]; intros images.
  - exists []. rewrite app_nil_r. split; [done|]. split; [constructor|].
    split; [|done]. intros n. split; [by intros ?%elem_of_nil|].
    by intros [?%elem_of_nil _].
  - rewrite overrideImages_cons.
    destruct (IH (overrideImage image images)) as (added & Hnames & Hnd & Hadded & _).
    rewrite overrideImage_names in Hnames, Hadded.
    set (n0 := kustomizev1.Name image) in *.
    assert (Hall : exists added0,
      map kustypes.Name (overrideImages overrides (overrideImage image images))
      = map kustypes.Name images ++ added0
      /\ NoDup added0
      /\ (forall n, n ∈ added0 <->
                    n ∈ map kustomizev1.Name (image :: overrides)
                    /\ n ∉ map kustypes.Name images)).
    { destruct (decide (n0 ∈ map kustypes.Name images)) as [Hin|Hnin].
      - rewrite app_nil_r in Hnames, Hadded. exists added.
        split; [done|]. split; [done|]. intros n. rewrite Hadded.
        cbn [map]. rewrite elem_of_cons. fold n0. split.
        + intros [? ?]. auto.
        + intros [[->|?] ?]; [contradiction|done].
      - exists (n0 :: added). rewrite <- app_assoc in Hnames. split; [done|].
        split.
        + constructor; [|done]. intros Hn0%Hadded. destruct Hn0 as [_ Hn0].
          apply Hn0, elem_of_app. right. by left.
        + intros n. cbn [map]. rewrite !elem_of_cons. fold n0. rewrite Hadded.
          rewrite elem_of_app, list_elem_of_singleton. split.
          * intros [->|[? Hn]]; [by auto|]. split; [by auto|]. intros ?. apply Hn. by left.
          * intros [[->|?] Hn]; [by left|].
            destruct (decide (n = n0)) as [->|Hne]; [by left|]. right. split; [done|].
            intros [?|?]; contradiction. }
    destruct Hall as (added0 & Hnames0 & Hnd0 & Hadded0).
    exists added0. split; [done|]. split; [done|]. split; [done|].
    intros Hndi. rewrite Hnames0. apply NoDup_app. split; [done|]. split; [|done].
    intros n Hn Hn'. apply Hadded0 in Hn'. by destruct Hn'.
Qed.

Lemma overrideImages_find_last
    (before after : list kustomizev1.Image) (image : kustomizev1.Image)
    (images : list kustypes.Image) :
  (forall later, In later after -> kustomizev1.Name later <> kustomizev1.Name image) ->
  exists j,
    list_find (named (kustomizev1.Name image))
              (overrideImages (before ++ image :: after) images)
    = Some (j, toImage image).
Proof.
  intros Hafter. revert images. induction before as [|b before IH]; intros images.
  - cbn [app]. rewrite overrideImages_cons.
    destruct (overrideImage_find_same image images) as [j Hj].
    revert Hj. generalize (overrideImage image images). clear images.
    induction after as [|a after IHa]; intros images Hj; [by exists j|].
    rewrite overrideImages_cons. apply IHa.
    + intros later Hin. apply Hafter. by right.
    + rewrite overrideImage_find_other; [done|].
      apply not_eq_sym, Hafter. by left.
  - cbn [app]. rewrite overrideImages_cons. apply IH.
Qed.

Lemma overrideImages_lookup_other
    (overrides : list kustomizev1.Image) (images : list kustypes.Image)
    (i : nat) (x : kustypes.Image) :
  images !! i = Some x ->
  (forall image, In image overrides -> kustomizev1.Name image <> kustypes.Name x) ->
  overrideImages overrides images !! i = Some x.
Proof.
  revert images. induction overrides as [|image overrides IH]; intros images Hi Hne;
    [done|].
  rewrite overrideImages_cons. apply IH.
  - apply overrideImage_lookup_other; [done|]. apply Hne. by left.
  - intros image' Hin. apply Hne. by right.
Qed.

Lemma list_find_same_names imageName (l l' : list kustypes.Image) j x :
  map kustypes.Name l = map kustypes.Name l' ->
  list_find (named imageName) l = Some (j, x) ->
  exists x', list_find (named imageName) l' = Some (j, x').
Proof.
  revert l' j. induction l as [|a l IH]; intros l' j Hnames Hfind; [done|].
  destruct l' as [|a' l']; [done|]. injection Hnames as Ha Hnames.
  cbn [list_find] in *.
  destruct (decide (named imageName a)) as [Hn|Hn];
    destruct (decide (named imageName a')) as [Hn'|Hn'];
    unfold named in Hn, Hn'; try congruence.
  - injection Hfind as <- <-. by exists a'.
  - destruct (list_find (named imageName) l) as [[j0 x0]|] eqn:Hl; [|done].
    injection Hfind as <- <-.
    destruct (IH l' j0 Hnames eq_refl) as [x' ->]. by exists x'.
Qed.

Lemma overrideImage_find_index imageName image images j x :
  list_find (named imageName) images = Some (j, x) ->
  exists x', list_find (named imageName) (overrideImage image images) = Some (j, x').
Proof.
  intros Hfind. destruct (decide (imageName = kustomizev1.Name image)) as [->|Hne].
  - rewrite overrideImage_list_find, Hfind.
    apply list_find_Some in Hfind as (Hj & Hx & Hbefore).
    exists (toImage image). apply list_find_Some. split; [|split].
    + apply list_lookup_insert_eq. by eapply lookup_lt_Some.
    + reflexivity.
    + intros i z Hz Hi. rewrite list_lookup_insert_ne in Hz by lia. by eapply Hbefore.
  - rewrite overrideImage_find_other by done. by exists x.
Qed.

Lemma overrideImage_lookup_later image images i j x y :
  images !! i = Some x ->
  list_find (named (kustypes.Name x)) images = Some (j, y) ->
  j <> i ->
  overrideImage image images !! i = Some x.
Proof.
  intros Hi Hfind Hji.
  destruct (decide (kustomizev1.Name image = kustypes.Name x)) as [Heq|Hne].
  - rewrite overrideImage_list_find, Heq, Hfind. by rewrite list_lookup_insert_ne.
  - by apply overrideImage_lookup_other.
Qed.

Lemma overrideImages_lookup_later overrides images i j x y :
  images !! i = Some x ->
  list_find (named (kustypes.Name x)) images = Some (j, y) ->
  j <> i ->
  overrideImages overrides images !! i = Some x.
Proof.
  revert images y. induction overrides as [|image overrides IH];
    intros images y Hi Hfind Hji; [done|].
  rewrite overrideImages_cons.
  destruct (overrideImage_find_index (kustypes.Name x) image images j y Hfind)
    as [y' Hfind'].
  eapply IH; [|exact Hfind'|done]. by eapply overrideImage_lookup_later.
Qed.

Lemma last_override_of_name imageName (overrides : list kustomizev1.Image) :
  imageName ∈ map kustomizev1.Name overrides ->
  exists before image after,
    overrides = before ++ image :: after
    /\ kustomizev1.Name image = imageName
    /\ forall later, In later after -> kustomizev1.Name later <> kustomizev1.Name image.
Proof.
  induction overrides as [|o overrides IH]; cbn [map]; [by intros ?%elem_of_nil|].
  intros Hin.
  destruct (decide (imageName ∈ map kustomizev1.Name overrides)) as [Hlater|Hlater].
  - destruct (IH Hlater) as (before & image & after & -> & Hname & Hafter).
    by exists (o :: before), image, after.
  - apply elem_of_cons in Hin as [->|?]; [|done].
    exists [], o, overrides. split; [done|]. split; [done|].
    intros later Hl Heq. apply Hlater. rewrite <- Heq.
    by apply list_elem_of_In, in_map.
Qed.

Lemma overrideImages_twice
    (overrides : list kustomizev1.Image) (images : list kustypes.Image) :
  overrideImages overrides (overrideImages overrides images)
  = overrideImages overrides images.
Proof.
  set (R := overrideImages overrides images).
  destruct (overrideImages_names_added overrides images) as (added1 & Hn1 & _ & Ha1 & _).
  destruct (overrideImages_names_added overrides R) as (added2 & Hn2 & _ & Ha2 & _).
  fold R in Hn1.
  assert (Hcover : forall n, n ∈ map kustomizev1.Name overrides -> n ∈ map kustypes.Name R).
  { intros n Hn. rewrite Hn1. apply elem_of_app.
    destruct (decide (n ∈ map kustypes.Name images)); [by left|right].
    by apply Ha1. }
  assert (added2 = []) as ->.
  { destruct added2 as [|n added2]; [done|].
    assert (Hn : n ∈ n :: added2) by by left.
    apply Ha2 in Hn as [Hn Hnot]. destruct Hnot. by apply Hcover. }
  rewrite app_nil_r in Hn2.
  apply list_eq. intros i. destruct (R !! i) as [x|] eqn:Hi.
  - assert (Hx : is_Some (list_find (named (kustypes.Name x)) R)).
    { apply (list_find_elem_of _ _ x); [by eapply list_elem_of_lookup_2|done]. }
    destruct Hx as [[j y] Hfind].
    destruct (decide (j = i)) as [->|Hji];
      [|by eapply overrideImages_lookup_later].
    destruct (decide (kustypes.Name x ∈ map kustomizev1.Name overrides)) as [Hin|Hnin].
    + destruct (last_override_of_name _ _ Hin)
        as (before & image & after & Hos & Hname & Hafter).
      destruct (overrideImages_find_last before after image images Hafter)
        as [j1 H1].
      destruct (overrideImages_find_last before after image R Hafter)
        as [j2 H2].
      rewrite <- Hos in H1, H2. fold R in H1. rewrite Hname in H1, H2.
      rewrite Hfind in H1. injection H1 as <- ->.
      destruct (list_find_same_names _ _ _ _ _ (eq_sym Hn2) Hfind) as [x' Hfind2].
      rewrite Hfind2 in H2. injection H2 as <- ->.
      apply list_find_Some in Hfind as [Hl0 _]. rewrite Hi in Hl0.
      apply list_find_Some in Hfind2 as [Hl _]. by rewrite Hl, Hl0.
    + apply overrideImages_lookup_other; [done|].
      intros image Himg Heq. apply Hnin. rewrite <- Heq.
      by apply list_elem_of_In, in_map.
  - apply lookup_ge_None in Hi. apply lookup_ge_None.
    apply (f_equal length) in Hn2. rewrite !length_map in Hn2. lia.
Qed.

(** The loop of [WriteFile] over the image overrides keeps the names of
    the images of the configuration in their places and appends each name
    of an override that no image had, once: afterwards every override has
    an image of its name, and a configuration without two images of one
    name has none afterwards either. *)
Theorem overrideImages_names
    (overrides : list kustomizev1.Image) (images : list kustypes.Image) :
  exists added,
    map kustypes.Name (overrideImages overrides images)
    = map kustypes.Name images ++ added
    /\ NoDup added
    /\ (forall n, n ∈ added <->
                  n ∈ map kustomizev1.Name overrides /\ n ∉ map kustypes.Name images)
    /\ (NoDup (map kustypes.Name images) ->
        NoDup (map kustypes.Name (overrideImages overrides images))).
Proof. apply overrideImages_names_added. Qed.

(** After the loop over the overrides, the first image of the name of an
    override is the image of the last override of that name: its new name
    and tag, and no digest. *)
Theorem overrideImages_last_override_wins
    (before after : list kustomizev1.Image) (image : kustomizev1.Image)
    (images : list kustypes.Image) :
  (forall later, In later after -> kustomizev1.Name later <> kustomizev1.Name image) ->
  exists j,
    list_find (named (kustomizev1.Name image))
              (overrideImages (before ++ image :: after) images)
    = Some (j, toImage image).
Proof. apply overrideImages_find_last. Qed.

(** The loop over the overrides leaves an image whose name no override
    has where and as it is. *)
Theorem overrideImages_untouched
    (overrides : list kustomizev1.Image) (images : list kustypes.Image)
    (i : nat) (x : kustypes.Image) :
  images !! i = Some x ->
  (forall image, In image overrides -> kustomizev1.Name image <> kustypes.Name x) ->
  overrideImages overrides images !! i = Some x.
Proof. apply overrideImages_lookup_other. Qed.

(** The loop over the image overrides is idempotent: run again on its own
    result, with the same overrides, it changes nothing. *)
Theorem overrideImages_idempotent
    (overrides : list kustomizev1.Image) (images : list kustypes.Image) :
  overrideImages overrides (overrideImages overrides images)
  = overrideImages overrides images.
Proof. apply overrideImages_twice. Qed.

(** What [WriteFile] does to the configuration is idempotent: a
    configuration that it has amended, read again and amended for the same
    object, is as it was. *)
Theorem amendKustomization_idempotent
    (kg : KustomizeGenerator) (kus : kustypes.Kustomization) :
  amendKustomization kg (amendKustomization kg kus) = amendKustomization kg kus.
Proof.
  unfold amendKustomization. cbn.
  rewrite overrideImages_twice.
  rewrite (addTransformer_present (addTransformer _)) by apply addTransformer_In.
  by destruct (String.eqb
                 (kustomizev1.TargetNamespace (kustomizev1.Spec (kustomization kg)))
                 EmptyString) eqn:Hns; rewrite ?Hns.
Qed.

End Images.

Section Synthesis.
Context `{E : Externals}.

(** ** The extension of a scanned path *)

Lemma list_ascii_of_append (s t : string) :
  list_ascii_of_string (s +:+ t) = list_ascii_of_string s ++ list_ascii_of_string t.
Proof. induction s as [|c s IH]; simpl; [done|]. by rewrite IH. Qed.

Lemma ext_scan_separator (l l' suffix : list ascii) :
  ext_scan (l ++ "/"%char :: l') suffix = ext_scan l suffix.
Proof.
  revert suffix. induction l as [|c l IH]; intros suffix; simpl; [done|].
  destruct (Ascii.eqb c "/"); [done|]. destruct (Ascii.eqb c "."); [done|]. apply IH.
Qed.

(** Whether the scan takes a file for YAML depends on the name of the file
    alone: the extension of a path is that of its last element, so that a
    dot in the name of a directory above makes no difference. *)
Theorem is_yaml_Join (dir name : string) :
  Ext (Join dir name) = Ext name /\ is_yaml (Join dir name) = is_yaml name.
Proof.
  assert (HExt : Ext (Join dir name) = Ext name).
  { unfold Ext, Join, sep.
    destruct (String.eqb dir "/" && negb (String.eqb name EmptyString)) eqn:Hroot.
    - apply andb_prop in Hroot as [->%String.eqb_eq _]. simpl.
      by rewrite ext_scan_separator.
    - rewrite !list_ascii_of_append. simpl.
      rewrite rev_app_distr. simpl. rewrite <- app_assoc. simpl.
      by rewrite ext_scan_separator. }
  split; [done|]. unfold is_yaml. by rewrite HExt.
Qed.

(** ** The outcome of the scan *)

Lemma collect_ok_decodes (base : string) (nodes : list (string * node)) :
  forall paths paths',
    (forall q n, In (q, n) nodes -> String.length base < String.length q) ->
    collect base nodes paths = (paths', WalkNil) ->
    forall q d, In (q, File d) nodes -> is_yaml q = true ->
                is_ok (SliceFromBytes d) = true.
Proof.
  induction nodes as [|[q0 n0] rest IH]; intros paths paths' Hlen Hres q d Hin Hy;
    [destruct Hin|].
  cbn [collect] in Hres.
  rewrite scanFn_below in Hres by (apply (Hlen q0 n0); by left).
  assert (Hrest : forall q' n', In (q', n') rest ->
                                String.length base < String.length q').
  { intros q' n' Hin'. apply (Hlen q' n'). by right. }
  destruct Hin as [[= -> ->]|Hin].
  - rewrite Hy in Hres. by destruct (SliceFromBytes d).
  - destruct n0 as [d0|entries].
    + destruct (is_yaml q0); [destruct (SliceFromBytes d0); [|discriminate]|];
        by eapply IH.
    + destruct (has_kfile entries); by eapply IH.
Qed.

(** The scan succeeds exactly when every YAML-like file that the walk
    visits decodes: files of other extensions and files inside a directory
    with a build configuration of its own cannot make it fail. *)
Theorem scan_succeeds_iff (fs : FS) (base : string) :
  (scan fs base).2 = None
  <-> forall q d, In (q, File d) (visited base (Dir fs)) -> is_yaml q = true ->
                  is_ok (SliceFromBytes d) = true.
Proof.
  rewrite scan_collect. split.
  - intros Hnone.
    pose proof (collect_no_skip base (visited base (Dir fs)) []) as Hns.
    destruct (collect base (visited base (Dir fs)) []) as [paths [| |e]] eqn:Hc;
      simpl in Hns, Hnone; [|done|discriminate].
    eapply collect_ok_decodes; [apply visited_below|exact Hc].
  - intros Hdec. by rewrite collect_kept; [|apply visited_below|].
Qed.

(** ** The synthesized configuration *)

Lemma prefix_append (s t : string) : String.prefix s (s +:+ t) = true.
Proof.
  induction s as [|c s IH]; simpl; [by destruct t|].
  by destruct (ascii_dec c c).
Qed.

Lemma substring_append (s t : string) :
  String.substring (String.length s) (String.length (s +:+ t) - String.length s) (s +:+ t)
  = t.
Proof.
  rewrite length_append. replace (_ + _ - _) with (String.length t) by lia.
  induction s as [|c s IH]; simpl; [|done].
  clear. induction t as [|c t IH]; simpl; [done|]. by rewrite IH.
Qed.

(** [strings.Replace] of a prefix. *)
Lemma strings_Replace1_prefix (old new rest : string) :
  strings_Replace1 (old +:+ rest) old new = new +:+ rest.
Proof.
  unfold strings_Replace1.
  assert (H : try_replace_first old new (old +:+ rest) = Some (new +:+ rest)).
  { pose proof (prefix_append old rest) as Hp.
    pose proof (substring_append old rest) as Hs.
    destruct (old +:+ rest) as [|c s]; cbn [try_replace_first];
      by rewrite Hp, Hs. }
  by rewrite H.
Qed.

Lemma Join_dirPrefix (dir name : string) :
  exists rel, Join dir name = dirPrefix dir +:+ rel.
Proof.
  unfold Join, dirPrefix, sep.
  destruct (String.eqb_spec dir "/") as [->|Hdir]; simpl.
  - destruct (String.eqb name EmptyString); simpl;
      [by exists (String "/" name)|by exists name].
  - exists name. by rewrite append_assoc.
Qed.

Lemma dirPrefix_extends (dir : string) : exists s, dirPrefix dir = dir +:+ s.
Proof.
  unfold dirPrefix. destruct (String.eqb dir sep).
  - exists EmptyString. by rewrite append_empty_r.
  - by exists sep.
Qed.

Lemma visited_under (info : node) :
  forall path q n,
    In (q, n) (visited path info) -> exists rel, q = dirPrefix path +:+ rel.
Proof.
  induction info as [data|names IH] using node_induction; intros path q n Hin.
  - destruct Hin.
  - induction names as [|[name child] rest IHrest]; [destruct Hin|].
    apply Forall_cons in IH as [IHchild IHnames].
    rewrite visited_cons in Hin. destruct Hin as [[= <- <-]|Hin].
    + apply Join_dirPrefix.
    + apply in_app_or in Hin as [Hin|Hin]; [|by apply IHrest].
      destruct (is_kdir child); [destruct Hin|].
      apply IHchild in Hin as [rel ->].
      destruct (Join_dirPrefix path name) as [r ->].
      destruct (dirPrefix_extends (dirPrefix path +:+ r)) as [t ->].
      exists (r +:+ t +:+ rel). by rewrite !append_assoc.
Qed.

(** [strings.Replace] of the staging directory at the head of a path below
    it: the dot takes the place of the directory, and under the root
    directory that of the separator. *)
Lemma strings_Replace1_dirPrefix (abs rel : string) :
  strings_Replace1 (dirPrefix abs +:+ rel) abs "."
  = (if String.eqb abs sep then "." else "./") +:+ rel.
Proof.
  unfold dirPrefix. destruct (String.eqb abs sep).
  - apply strings_Replace1_prefix.
  - rewrite append_assoc. by rewrite strings_Replace1_prefix.
Qed.

Lemma fs_put_put name x y entries :
  fs_put name y (fs_put name x entries) = fs_put name y entries.
Proof.
  induction entries as [|[n z] rest IH]; simpl.
  - by rewrite String.eqb_refl.
  - destruct (String.eqb n name) eqn:Hn; simpl.
    + by rewrite String.eqb_refl.
    + destruct (String.ltb name n) eqn:Hlt; simpl.
      * by rewrite String.eqb_refl.
      * by rewrite Hn, Hlt, IH.
Qed.

(** When the root holds no build configuration, nothing is there under
    the default name and every visited YAML-like file decodes,
    [generateKustomization] writes, under the default name, the
    configuration whose resources are the kept paths of the scan in the
    order of the walk, each with a dot in the place of the staging
    directory: a leading dot and slash, and under the root directory a
    leading dot alone; it lists no transformer and no image, and the rest
    of the directory is as it was. *)
Theorem generateKustomization_synthesized (dirPath abs : string) (fs : FS) (kd : string) :
  let files := map fst (List.filter kept (visited abs (Dir fs))) in
  let kus :=
    {| kustypes.APIVersion := kustypes.KustomizationVersion;
       kustypes.Kind := kustypes.KustomizationKind;
       kustypes.Namespace := EmptyString;
       kustypes.Resources := map (fun file => strings_Replace1 file abs ".") files;
       kustypes.Transformers := [];
       kustypes.Images := [] |} in
  has_kfile fs = false ->
  fs_lookup DefaultKustomizationFileName fs = None ->
  filepath_Abs dirPath = Ok abs ->
  (forall q d, In (q, File d) (visited abs (Dir fs)) -> is_yaml q = true ->
               is_ok (SliceFromBytes d) = true) ->
  yaml_Marshal kus = Ok kd ->
  generateKustomization dirPath fs
  = (fs_put DefaultKustomizationFileName (File kd) fs, Ok tt)
  /\ Forall2 (fun file resource =>
                exists rel,
                  file = dirPrefix abs +:+ rel
                  /\ resource = (if String.eqb abs sep then "." else "./") +:+ rel)
             files (kustypes.Resources kus).
Proof.
  intros files kus Hk Hnone Habs Hdec Hkd.
  assert (Hscan : scan fs abs = (files, None)).
  { rewrite scan_collect. by rewrite collect_kept; [|apply visited_below|]. }
  assert (Hunder : forall file, In file files -> exists rel, file = dirPrefix abs +:+ rel).
  { intros file Hin. subst files. apply in_map_iff in Hin as ([q n] & <- & Hin).
    apply filter_In in Hin as [Hin _]. simpl. by eapply visited_under. }
  split.
  - unfold generateKustomization, bind, lift, check. rewrite Hk, Habs, Hscan.
    unfold fs_WriteFile at 1. rewrite Hnone. fold kus. rewrite Hkd.
    unfold fs_WriteFile. rewrite fs_lookup_put_eq. by rewrite fs_put_put.
  - cbn [kustypes.Resources kus]. apply Forall2_fmap_r, Forall_Forall2_diag.
    apply Forall_forall. intros file Hin%list_elem_of_In.
    destruct (Hunder file Hin) as [rel ->]. exists rel. split; [done|].
    by rewrite strings_Replace1_dirPrefix.
Qed.

(** ** What the generator leaves alone *)

Lemma check_WriteFile_lookup_ne dirPath name name' data fs :
  name <> name' ->
  fs_lookup name' (check (fs_WriteFile dirPath name data) fs).1 = fs_lookup name' fs.
Proof.
  intros Hne. unfold check.
  pose proof (fs_WriteFile_lookup_ne dirPath name name' data fs Hne) as H.
  by destruct (fs_WriteFile dirPath name data fs) as [fs' [e|]].
Qed.

Lemma generateKustomization_lookup_ne dirPath fs name :
  name <> DefaultKustomizationFileName ->
  fs_lookup name (generateKustomization dirPath fs).1 = fs_lookup name fs.
Proof.
  intros Hne. apply not_eq_sym in Hne.
  unfold generateKustomization. destruct (has_kfile fs); [done|].
  unfold bind, lift.
  destruct (filepath_Abs dirPath) as [abs|e]; [|done].
  destruct (scan fs abs) as [files [e|]]; [done|].
  pose proof (check_WriteFile_lookup_ne dirPath DefaultKustomizationFileName name
                EmptyString fs Hne) as H1.
  destruct (check (fs_WriteFile dirPath DefaultKustomizationFileName EmptyString) fs)
    as [fs1 [[]|e]]; simpl in H1; [|done].
  destruct (yaml_Marshal _) as [kd|e]; [|done].
  rewrite <- H1. by apply check_WriteFile_lookup_ne.
Qed.

Lemma checksum_lookup_ne kg dirPath fs name :
  name <> DefaultKustomizationFileName ->
  fs_lookup name (checksum kg dirPath fs).1 = fs_lookup name fs.
Proof.
  intros Hne. pose proof (generateKustomization_lookup_ne dirPath fs name Hne) as H.
  unfold checksum, bind, wrap, lift, ret.
  destruct (generateKustomization dirPath fs) as [fs1 [[]|e]]; simpl in H; [|done].
  destruct (buildKustomization fs1 dirPath) as [m|e]; [|done].
  destruct (AsYaml m) as [resources|e]; [|done].
  by destruct (runPostBuildActions (kustomization kg) resources).
Qed.

(** Whatever their outcome, [generateKustomization] and [checksum] change
    nothing at the root of the staging directory but the file of the
    default name: every other file and every sub-directory, the file of
    the label transformer among them, is as it was. *)
Theorem checksum_frame kg dirPath fs name :
  name <> DefaultKustomizationFileName ->
  fs_lookup name (generateKustomization dirPath fs).1 = fs_lookup name fs
  /\ fs_lookup name (checksum kg dirPath fs).1 = fs_lookup name fs.
Proof.
  intros Hne. split;
    [by apply generateKustomization_lookup_ne | by apply checksum_lookup_ne].
Qed.

(** Whatever its outcome, [WriteFile] changes nothing at the root of the
    staging directory but the file of the default name and the file of the
    label transformer. *)
Theorem WriteFile_frame kg dirPath fs name :
  name <> DefaultKustomizationFileName ->
  name <> transformerFileName ->
  fs_lookup name (WriteFile kg dirPath fs).1 = fs_lookup name fs.
Proof.
  intros Hdef Htr.
  pose proof (checksum_lookup_ne kg dirPath fs name Hdef) as H1.
  unfold WriteFile, writeFileSteps. unfold bind at 1.
  destruct (checksum kg dirPath fs) as [fs1 [token|e]]; simpl in H1; [|simpl; congruence].
  unfold bind at 1. unfold generateLabelTransformer, bind at 1, lift.
  destruct (yaml_Marshal_lt _) as [data|e]; [|simpl; congruence].
  pose proof (check_WriteFile_lookup_ne dirPath transformerFileName name data fs1
                (not_eq_sym Htr)) as H2.
  destruct (check (fs_WriteFile dirPath transformerFileName data) fs1)
    as [fs2 [[]|e]]; simpl in H2; [|simpl; congruence].
  unfold bind, lift.
  destruct (fs_ReadFile dirPath DefaultKustomizationFileName fs2) as [d|e];
    [|simpl; congruence].
  destruct (yaml_Unmarshal d emptyKustomization) as [kus|e]; [|simpl; congruence].
  destruct (yaml_Marshal (amendKustomization kg kus)) as [kd|e]; [|simpl; congruence].
  pose proof (fs_WriteFile_lookup_ne dirPath DefaultKustomizationFileName name kd fs2
                (not_eq_sym Hdef)) as H3.
  destruct (fs_WriteFile dirPath DefaultKustomizationFileName kd fs2) as [fs3 err].
  simpl in *. congruence.
Qed.

(** ** The failures of the checksum *)

(** An error of [checksum] names the stage that failed: the creation of
    the configuration, the build (the engine or the serialization of its
    result) or the post-build actions; in each case it wraps the error of
    that stage, and the staging directory is as [generateKustomization]
    left it. *)
Theorem checksum_error_stage kg dirPath fs fs' e :
  checksum kg dirPath fs = (fs', Err e) ->
  (generateKustomization dirPath fs).1 = fs'
  /\ exists cause,
       (e = ErrWrap "kustomize create failed" cause
        /\ generateKustomization dirPath fs = (fs', Err cause))
       \/ (e = ErrWrap "kustomize build failed" cause
           /\ generateKustomization dirPath fs = (fs', Ok tt)
           /\ (buildKustomization fs' dirPath = Err cause
               \/ exists m, buildKustomization fs' dirPath = Ok m
                            /\ AsYaml m = Err cause))
       \/ (e = ErrWrap "post-build actions failed" cause
           /\ generateKustomization dirPath fs = (fs', Ok tt)
           /\ exists m resources,
                buildKustomization fs' dirPath = Ok m
                /\ AsYaml m = Ok resources
                /\ runPostBuildActions (kustomization kg) resources = Err cause).
Proof.
  unfold checksum, bind, wrap, lift, ret.
  destruct (generateKustomization dirPath fs) as [fs1 [[]|c]]; simpl.
  - destruct (buildKustomization fs1 dirPath) as [m|c] eqn:Hb.
    + destruct (AsYaml m) as [resources|c] eqn:Hy.
      * destruct (runPostBuildActions (kustomization kg) resources) as [out|c] eqn:Hp;
          [discriminate|].
        intros [= <- <-]. split; [done|]. exists c. right. right.
        split; [done|]. split; [done|]. by exists m, resources.
      * intros [= <- <-]. split; [done|]. exists c. right. left.
        split; [done|]. split; [done|]. right. by exists m.
    + intros [= <- <-]. split; [done|]. exists c. right. left.
      split; [done|]. split; [done|]. by left.
  - intros [= <- <-]. split; [done|]. exists c. by left.
Qed.

(** ** The form of the token *)

Lemma hex_digit_lower (n : N) : is_lower_hex (hex_digit n) = true.
Proof.
  destruct n as [|p]; [done|].
  do 4 (try (destruct p as [p|p|]; try done)).
Qed.

Lemma hex_form (bytes : string) :
  String.length (hex bytes) = 2 * String.length bytes
  /\ all_chars is_lower_hex (hex bytes) = true.
Proof.
  induction bytes as [|c bytes [IHl IHc]]; [done|].
  cbn [hex String.length all_chars]. rewrite IHl, IHc, !hex_digit_lower.
  split; [lia|done].
Qed.

(** A token that [checksum] returns is the hash of the post-build output
    in lower-case hexadecimal digits, two for each byte of the hash. *)
Theorem checksum_token_form kg dirPath fs fs1 token :
  checksum kg dirPath fs = (fs1, Ok token) ->
  all_chars is_lower_hex token = true
  /\ exists output,
       token = hex (sha1_Sum output)
       /\ String.length token = 2 * String.length (sha1_Sum output).
Proof.
  intros Hsum.
  apply checksum_inv in Hsum as (m & resources & output & _ & _ & _ & _ & ->).
  destruct (hex_form (sha1_Sum output)) as [Hl Hc]. split; [done|]. by exists output.
Qed.

(** ** The configuration that [WriteFile] leaves *)

Lemma WriteFile_final kg dirPath fs fs' token :
  WriteFile kg dirPath fs = (fs', (token, None)) ->
  exists fs1 data kus kd,
    generateKustomization dirPath fs = (fs1, Ok tt)
    /\ fs_lookup DefaultKustomizationFileName fs1 = Some (File data)
    /\ yaml_Unmarshal data emptyKustomization = Ok kus
    /\ yaml_Marshal (amendKustomization kg kus) = Ok kd
    /\ fs_lookup DefaultKustomizationFileName fs' = Some (File kd).
Proof.
  unfold WriteFile, writeFileSteps. unfold bind at 1.
  destruct (checksum kg dirPath fs) as [fs1 [tok|e]] eqn:Hsum; [|discriminate].
  pose proof (checksum_inv _ _ _ _ _ Hsum) as (m & res & out & Hgen & _).
  unfold bind at 1. unfold generateLabelTransformer, bind at 1, lift.
  destruct (yaml_Marshal_lt _) as [data|e]; [|discriminate].
  pose proof (check_WriteFile_lookup_ne dirPath transformerFileName
                DefaultKustomizationFileName data fs1 transformer_not_default) as H2.
  destruct (check (fs_WriteFile dirPath transformerFileName data) fs1)
    as [fs2 [[]|e]]; simpl in H2; [|discriminate].
  unfold bind, lift, fs_ReadFile. rewrite H2.
  destruct (fs_lookup DefaultKustomizationFileName fs1) as [[d|es]|] eqn:Hl;
    try discriminate.
  destruct (yaml_Unmarshal d emptyKustomization) as [kus|e] eqn:Hu; [|discriminate].
  destruct (yaml_Marshal (amendKustomization kg kus)) as [kd|e] eqn:Hkd; [|discriminate].
  destruct (fs_WriteFile dirPath DefaultKustomizationFileName kd fs2) as [fs3 err] eqn:Hw.
  intros [= <- <- ->]. apply fs_WriteFile_ok in Hw as [_ Hl3].
  by exists fs1, d, kus, kd.
Qed.

(** When the root holds a configuration under the default name, a
    [WriteFile] that succeeds has decoded that very configuration and
    leaves it amended under the same name: its resources are kept, the
    transformer is listed, the namespace is the target namespace when the
    spec has one, and the images are overridden. *)
Theorem WriteFile_existing_configuration kg dirPath fs data kus fs' token :
  fs_lookup DefaultKustomizationFileName fs = Some (File data) ->
  yaml_Unmarshal data emptyKustomization = Ok kus ->
  WriteFile kg dirPath fs = (fs', (token, None)) ->
  exists kd,
    yaml_Marshal (amendKustomization kg kus) = Ok kd
    /\ fs_lookup DefaultKustomizationFileName fs' = Some (File kd)
    /\ kustypes.Resources (amendKustomization kg kus) = kustypes.Resources kus
    /\ In transformerFileName (kustypes.Transformers (amendKustomization kg kus))
    /\ (forall image, In image (kustomizev1.Images (kustomizev1.Spec (kustomization kg))) ->
          kustomizev1.Name image
          ∈ map kustypes.Name (kustypes.Images (amendKustomization kg kus))).
Proof.
  intros Hl Hu Hw.
  apply WriteFile_final in Hw as (fs1 & d & kus' & kd & Hgen & Hl1 & Hu' & Hkd & Hl').
  assert (Hk : has_kfile fs = true).
  { apply (has_kfile_intro fs DefaultKustomizationFileName); [by left|].
    unfold is_file. by rewrite Hl. }
  rewrite (generateKustomization_skip dirPath fs Hk) in Hgen. injection Hgen as <-.
  rewrite Hl in Hl1. injection Hl1 as <-. rewrite Hu in Hu'. injection Hu' as <-.
  exists kd. split; [done|]. split; [done|]. split; [done|]. split.
  - apply addTransformer_In.
  - intros image Hin. cbn [amendKustomization kustypes.Images].
    destruct (overrideImages_names_added
                (kustomizev1.Images (kustomizev1.Spec (kustomization kg)))
                (kustypes.Images kus)) as (added & Hnames & _ & Hadded & _).
    rewrite Hnames. apply elem_of_app.
    destruct (decide (kustomizev1.Name image ∈ map kustypes.Name (kustypes.Images kus)));
      [by left|right].
    apply Hadded. split; [|done]. by apply list_elem_of_In, in_map, Hin.
Qed.

(** When the root holds no build configuration and the YAML codec reads
    the synthesized configuration back as it was written, a [WriteFile]
    that succeeds leaves, under the default name, the configuration with
    the scanned resources, the label transformer as its only transformer,
    the target namespace of the spec and the image overrides applied to no
    images. *)
Theorem WriteFile_synthesized_configuration kg dirPath abs files kd0 fs fs' token :
  let kus0 :=
    {| kustypes.APIVersion := kustypes.KustomizationVersion;
       kustypes.Kind := kustypes.KustomizationKind;
       kustypes.Namespace := EmptyString;
       kustypes.Resources := map (fun file => strings_Replace1 file abs ".") files;
       kustypes.Transformers := [];
       kustypes.Images := [] |} in
  has_kfile fs = false ->
  filepath_Abs dirPath = Ok abs ->
  scan fs abs = (files, None) ->
  yaml_Marshal kus0 = Ok kd0 ->
  yaml_Unmarshal kd0 emptyKustomization = Ok kus0 ->
  WriteFile kg dirPath fs = (fs', (token, None)) ->
  exists kd,
    yaml_Marshal
      {| kustypes.APIVersion := kustypes.KustomizationVersion;
         kustypes.Kind := kustypes.KustomizationKind;
         kustypes.Namespace :=
           kustomizev1.TargetNamespace (kustomizev1.Spec (kustomization kg));
         kustypes.Resources := map (fun file => strings_Replace1 file abs ".") files;
         kustypes.Transformers := [transformerFileName];
         kustypes.Images :=
           overrideImages (kustomizev1.Images (kustomizev1.Spec (kustomization kg))) [] |}
    = Ok kd
    /\ fs_lookup DefaultKustomizationFileName fs' = Some (File kd).
Proof.
  intros kus0 Hk Habs Hscan Hkd0 Hu0 Hw.
  apply WriteFile_final in Hw as (fs1 & d & kus & kd & Hgen & Hl1 & Hu & Hkd & Hl').
  apply generateKustomization_inv in Hgen
    as [[Hk' _]|(_ & abs' & files' & kd0' & Habs' & Hscan' & Hkd0' & ->)]; [congruence|].
  rewrite Habs in Habs'. injection Habs' as <-.
  rewrite Hscan in Hscan'. injection Hscan' as <-.
  fold kus0 in Hkd0'. rewrite Hkd0 in Hkd0'. injection Hkd0' as <-.
  rewrite fs_lookup_put_eq in Hl1. injection Hl1 as <-.
  rewrite Hu0 in Hu. injection Hu as <-.
  exists kd. split; [|done]. rewrite <- Hkd. f_equal.
  unfold amendKustomization, kus0. cbn. f_equal.
  by destruct (String.eqb_spec
                 (kustomizev1.TargetNamespace (kustomizev1.Spec (kustomization kg)))
                 EmptyString) as [->|].
Qed.

(** ** The expansion function and the empty value *)

Lemma eval_from_ext (f g : string -> string) (n : nat) :
  (forall x, f x = g x) ->
  forall s mode, String.length s <= n -> eval_from f mode s = eval_from g mode s.
Proof.
  intros Hfg. induction n as [|n IH]; intros s mode Hlen.
  - destruct s; [by destruct mode|simpl in Hlen; lia].
  - destruct s as [|c rest]; [by destruct mode|]. simpl in Hlen.
    assert (Hrest : forall mode', eval_from f mode' rest = eval_from g mode' rest).
    { intros mode'. apply IH. lia. }
    assert (Hrest' : forall c' rest', rest = String c' rest' ->
              forall mode', eval_from f mode' rest' = eval_from g mode' rest').
    { intros c' rest' -> mode'. apply IH. simpl in Hlen. lia. }
    destruct mode as [|name|name default]; cbn [eval_from].
    + destruct (Ascii.eqb c "$"); [|by rewrite Hrest].
      destruct rest as [|c' rest']; [done|].
      specialize (Hrest' c' rest' eq_refl).
      destruct c' as [[] [] [] [] [] [] [] []]; by rewrite ?Hrest', ?Hrest.
    + destruct (Ascii.eqb c "}").
      * destruct (String.eqb name EmptyString); [done|]. by rewrite Hfg, Hrest.
      * destruct (Ascii.eqb c ":").
        -- destruct rest as [|c' rest']; [done|].
           specialize (Hrest' c' rest' eq_refl).
           destruct c' as [[] [] [] [] [] [] [] []]; try done.
           destruct (String.eqb name EmptyString); [done|]. apply Hrest'.
        -- destruct (is_name_char c); [apply Hrest|done].
    + destruct (Ascii.eqb c "}"); [|apply Hrest]. by rewrite Hfg, Hrest.
Qed.

Lemma envsubst_Eval_ext (s : string) (f g : string -> string) :
  (forall x, f x = g x) -> envsubst_Eval s f = envsubst_Eval s g.
Proof. intros Hfg. by apply (eval_from_ext f g (String.length s)). Qed.

End Synthesis.

Section Determinism.
Context `{E : Externals}.

(** ** The checksum in two staging directories *)












End Determinism.

(** * The generator on concrete directories *)

Example Ext_of_paths :
  Ext "/tmp/stage/apps/deploy.yaml" = ".yaml"
  /\ Ext "/tmp/stage/v1.2/README" = EmptyString
  /\ Ext "/tmp/stage/bundle.tar.gz" = ".gz".
Proof. by vm_compute. Qed.

Example Join_of_paths :
  Join "/tmp/stage" "apps" = "/tmp/stage/apps" /\ Join "/" "etc" = "/etc".
Proof. by vm_compute. Qed.

(** Under the root directory the dot takes the place of the separator. *)
Example scan_of_the_root_directory :
  @scan Sample.externals Sample.staging "/"
  = (["/namespace.yaml"; "/service-account.yaml"], None)
  /\ strings_Replace1 "/namespace.yaml" "/" "." = ".namespace.yaml".
Proof. by vm_compute. Qed.

Example substitution_keeps_a_lone_dollar :
  runPostBuildActions (substituting {[ "region" := "eu-central-1" ]})
    "price: $5, region: ${region}"
  = Ok "price: $5, region: eu-central-1"
  /\ is_ok (runPostBuildActions (substituting {[ "region" := "eu-central-1" ]})
                    "region: ${region:-eu}") = false.
Proof. by vm_compute. Qed.

Example Replace_of_path :
  strings_Replace1 "/tmp/stage/apps/deploy.yaml" "/tmp/stage" "." = "./apps/deploy.yaml".
Proof. by vm_compute. Qed.

(** A directory under a recognized name is no build configuration. *)
Example has_kfile_of_a_directory :
  has_kfile [ ("kustomization.yaml", Dir []) ] = false
  /\ has_kfile [ ("Kustomization", File EmptyString) ] = true.
Proof. by vm_compute. Qed.

Example scan_of_nested :
  @scan Sample.externals Sample.nested "/tmp/stage"
  = (["/tmp/stage/apps"; "/tmp/stage/namespace.yaml"], None)
  /\ @scan Sample.externals Sample.nested_emptied "/tmp/stage"
     = @scan Sample.externals Sample.nested "/tmp/stage".
Proof. by vm_compute. Qed.

Example WriteFile_of_staging :
  (@WriteFile Sample.externals Sample.kg "/tmp/stage" Sample.staging).2 = ("c6", None)
  /\ (@generateKustomization Sample.externals "/tmp/stage" Sample.staging).1
     = [ ("kustomization.yaml",
          File ("apiVersion: kustomize.config.k8s.io/v1beta1" +:+ Sample.nl
                +:+ "kind: Kustomization" +:+ Sample.nl
                +:+ "namespace: " +:+ Sample.nl
                +:+ "resources:" +:+ Sample.nl
                +:+ "- ./namespace.yaml" +:+ Sample.nl
                +:+ "- ./service-account.yaml" +:+ Sample.nl
                +:+ "transformers:" +:+ Sample.nl));
         ("namespace.yaml", File Sample.namespace_yaml);
         ("service-account.yaml", File Sample.service_account_yaml) ].
Proof. by vm_compute. Qed.

Example addTransformer_of_lists :
  addTransformer [] = [transformerFileName]
  /\ addTransformer ["patch.yaml"] = ["patch.yaml"; transformerFileName]
  /\ addTransformer [transformerFileName; "patch.yaml"]
     = [transformerFileName; "patch.yaml"].
Proof. by vm_compute. Qed.

(** * Where the claims fail as they are stated *)



(** * The properties on the sample instance *)



Lemma generateKustomization_existing_untouched_sample :
  @generateKustomization Sample.externals "/tmp/stage" Sample.with_yml
  = (Sample.with_yml, Ok tt).
Proof.
  apply (@generateKustomization_existing_untouched Sample.externals "/tmp/stage"
           Sample.with_yml "kustomization.yml").
  - simpl. auto.
  - reflexivity.
Defined.

Lemma WriteFile_non_default_name_fails_sample :
  @generateKustomization Sample.externals "/tmp/stage" Sample.with_yml
  = (Sample.with_yml, Ok tt)
  /\ (exists e, (@WriteFile Sample.externals Sample.kg "/tmp/stage" Sample.with_yml).2
                = (EmptyString, Some e))
  /\ is_file (@WriteFile Sample.externals Sample.kg "/tmp/stage" Sample.with_yml).1
       DefaultKustomizationFileName = false.
Proof.
  apply (@WriteFile_non_default_name_fails Sample.externals Sample.kg "/tmp/stage"
           Sample.with_yml "kustomization.yml").
  - simpl. auto.
  - discriminate.
  - reflexivity.
  - reflexivity.
Defined.

Lemma buildKustomization_invocation_contract_sample :
  @buildKustomization (with_engine Sample.externals (guarded_run Sample.externals))
    Sample.with_yml "/tmp/stage"
  = @buildKustomization Sample.externals Sample.with_yml "/tmp/stage"
  /\ @buildKustomization Sample.externals Sample.with_yml "/tmp/stage"
     = Sample.run buildOptions Sample.with_yml "/tmp/stage"
  /\ krusty.DoLegacyResourceSort buildOptions = true
  /\ krusty.UseKyaml buildOptions = false
  /\ krusty.LoadRestrictions buildOptions = kustypes.LoadRestrictionsNone
  /\ krusty.PluginConfig buildOptions = DisabledPluginConfig
  /\ kustypes.pluginRestrictions (krusty.PluginConfig buildOptions)
     = kustypes.PluginRestrictionsBuiltinsOnly
  /\ krusty.AllowResourceIdChanges buildOptions = false.
Proof.
  apply (@buildKustomization_invocation_contract Sample.externals
           (guarded_run Sample.externals) Sample.with_yml "/tmp/stage").
  intros o Ho. unfold guarded_run. rewrite Ho. reflexivity.
Defined.

Lemma generateKustomization_decode_failure_sample :
  let failure :=
    ErrWrap "failed to decode Kubernetes YAML from /tmp/stage/service-account.yaml"
            (ErrExternal "yaml: found character that cannot start any token") in
  @generateKustomization Sample.externals "/tmp/stage" Sample.broken
  = (Sample.broken, Err failure)
  /\ @WriteFile Sample.externals Sample.kg "/tmp/stage" Sample.broken
     = (Sample.broken, (EmptyString, Some (ErrWrap "kustomize create failed" failure))).
Proof.
  apply (@generateKustomization_decode_failure Sample.externals Sample.kg
           "/tmp/stage" "/tmp/stage" Sample.broken
           [ ("/tmp/stage/apps",
              Dir [ ("kustomization.yaml", File ("resources:" +:+ Sample.nl)) ]);
             ("/tmp/stage/namespace.yaml", File Sample.namespace_yaml) ]
           []
           "/tmp/stage/service-account.yaml"
           ("kind:" +:+ Sample.tab +:+ "ServiceAccount")
           (ErrExternal "yaml: found character that cannot start any token")).
  - reflexivity.
  - reflexivity.
  - reflexivity.
  - intros q d [H|[H|[]]] _.
    + discriminate H.
    + injection H as <- <-. reflexivity.
  - reflexivity.
  - reflexivity.
Defined.

Lemma scan_kustomization_directory_sample :
  let paths := ["/tmp/stage/apps"; "/tmp/stage/namespace.yaml"] in
  paths = map fst (List.filter (@kept) (visited "/tmp/stage" (Dir Sample.nested)))
  /\ (forall q entries,
        In (q, Dir entries) (visited "/tmp/stage" (Dir Sample.nested)) ->
        has_kfile entries = true -> In q paths)
  /\ (forall path name entries rest,
        has_kfile entries = true ->
        visited path (Dir ((name, Dir entries) :: rest))
        = (Join path name, Dir entries) :: visited path (Dir rest))
  /\ (forall fs', same_outside_kdirs (Dir Sample.nested) (Dir fs') ->
                  @scan Sample.externals fs' "/tmp/stage" = (paths, None)).
Proof.
  apply (@scan_kustomization_directory Sample.externals Sample.nested "/tmp/stage").
  vm_compute. reflexivity.
Defined.

Lemma runPostBuildActions_substitution_sample :
  let k := substituting {[ "region" := "eu-central-1" ]} in
  runPostBuildActions k ("${" +:+ "region" +:+ "}" +:+ EmptyString)
  = prepend (value_of (substitutions k) "region") (runPostBuildActions k EmptyString)
  /\ runPostBuildActions k ("${" +:+ "env" +:+ ":=" +:+ "dev" +:+ "}" +:+ EmptyString)
     = prepend "dev" (runPostBuildActions k EmptyString)
  /\ runPostBuildActions (substituting ∅) "${region}" = Ok "${region}".
Proof.
  intros k.
  destruct (runPostBuildActions_substitution k (substituting ∅))
    as (Hname & Hdefault & _ & _ & _ & _ & _ & Hnone & _).
  - apply (bool_decide_unpack _). vm_compute. exact I.
  - reflexivity.
  - split; [|split].
    + apply Hname. reflexivity.
    + apply (Hdefault "env" "dev" EmptyString); reflexivity.
    + apply Hnone.
Defined.

(** * The further properties on the sample instance *)

Lemma overrideImages_last_override_wins_sample :
  exists j,
    list_find (named "ghcr.io/stefanprodan/podinfo")
      (overrideImages ([Sample.podinfo_to_501] ++ Sample.podinfo_to_502
                         :: [Sample.nginx_to_119])
                      [Sample.redis; Sample.podinfo])
    = Some (j, toImage Sample.podinfo_to_502).
Proof.
  apply (overrideImages_last_override_wins [Sample.podinfo_to_501] [Sample.nginx_to_119]
           Sample.podinfo_to_502 [Sample.redis; Sample.podinfo]).
  intros later [<-|[]]. discriminate.
Defined.

Lemma overrideImages_untouched_sample :
  overrideImages [Sample.podinfo_to_501; Sample.nginx_to_119]
                 [Sample.redis; Sample.podinfo] !! 0
  = Some Sample.redis.
Proof.
  apply (overrideImages_untouched [Sample.podinfo_to_501; Sample.nginx_to_119]
           [Sample.redis; Sample.podinfo] 0 Sample.redis).
  - reflexivity.
  - intros image [<-|[<-|[]]]; discriminate.
Defined.

Lemma generateKustomization_synthesized_sample :
  exists kd,
    @generateKustomization Sample.externals "/tmp/stage" Sample.staging
    = (fs_put DefaultKustomizationFileName (File kd) Sample.staging, Ok tt)
    /\ Forall2 (fun file resource =>
                  exists rel, file = "/tmp/stage/" +:+ rel
                              /\ resource = "./" +:+ rel)
               ["/tmp/stage/namespace.yaml"; "/tmp/stage/service-account.yaml"]
               ["./namespace.yaml"; "./service-account.yaml"].
Proof.
  eexists.
  apply (@generateKustomization_synthesized Sample.externals "/tmp/stage" "/tmp/stage"
           Sample.staging).
  - reflexivity.
  - reflexivity.
  - reflexivity.
  - intros q d [H|[H|[]]] _; injection H as <- <-; reflexivity.
  - reflexivity.
Defined.

Lemma checksum_frame_sample :
  fs_lookup "namespace.yaml"
    (@generateKustomization Sample.externals "/tmp/stage" Sample.staging).1
  = fs_lookup "namespace.yaml" Sample.staging
  /\ fs_lookup "namespace.yaml"
       (@checksum Sample.externals Sample.kg "/tmp/stage" Sample.staging).1
     = fs_lookup "namespace.yaml" Sample.staging.
Proof.
  apply (@checksum_frame Sample.externals Sample.kg "/tmp/stage" Sample.staging
           "namespace.yaml").
  discriminate.
Defined.

Lemma WriteFile_frame_sample :
  fs_lookup "apps" (@WriteFile Sample.externals Sample.kg "/tmp/stage" Sample.nested).1
  = fs_lookup "apps" Sample.nested.
Proof.
  apply (@WriteFile_frame Sample.externals Sample.kg "/tmp/stage" Sample.nested "apps");
    discriminate.
Defined.

Lemma checksum_error_stage_sample :
  let e :=
    ErrWrap "kustomize create failed"
      (ErrWrap "failed to decode Kubernetes YAML from /tmp/stage/service-account.yaml"
         (ErrExternal "yaml: found character that cannot start any token")) in
  (@generateKustomization Sample.externals "/tmp/stage" Sample.broken).1 = Sample.broken
  /\ exists cause,
       (e = ErrWrap "kustomize create failed" cause
        /\ @generateKustomization Sample.externals "/tmp/stage" Sample.broken
           = (Sample.broken, Err cause))
       \/ (e = ErrWrap "kustomize build failed" cause
           /\ @generateKustomization Sample.externals "/tmp/stage" Sample.broken
              = (Sample.broken, Ok tt)
           /\ (@buildKustomization Sample.externals Sample.broken "/tmp/stage" = Err cause
               \/ exists m, @buildKustomization Sample.externals Sample.broken "/tmp/stage"
                            = Ok m
                            /\ Ok m = Err cause))
       \/ (e = ErrWrap "post-build actions failed" cause
           /\ @generateKustomization Sample.externals "/tmp/stage" Sample.broken
              = (Sample.broken, Ok tt)
           /\ exists m resources,
                @buildKustomization Sample.externals Sample.broken "/tmp/stage" = Ok m
                /\ Ok m = Ok resources
                /\ runPostBuildActions (kustomization Sample.kg) resources = Err cause).
Proof.
  intros e.
  apply (@checksum_error_stage Sample.externals Sample.kg "/tmp/stage" Sample.broken
           Sample.broken e).
  vm_compute. reflexivity.
Defined.

Lemma checksum_token_form_sample :
  all_chars is_lower_hex "c6" = true
  /\ exists output,
       "c6" = hex (Sample.digest output)
       /\ String.length "c6" = 2 * String.length (Sample.digest output).
Proof.
  apply (@checksum_token_form Sample.externals Sample.kg "/tmp/stage" Sample.staging
           (@checksum Sample.externals Sample.kg "/tmp/stage" Sample.staging).1 "c6").
  vm_compute. reflexivity.
Defined.

Lemma WriteFile_existing_configuration_sample :
  let kus :=
    {| kustypes.APIVersion := kustypes.KustomizationVersion;
       kustypes.Kind := kustypes.KustomizationKind;
       kustypes.Namespace := EmptyString;
       kustypes.Resources := ["namespace.yaml"];
       kustypes.Transformers := [];
       kustypes.Images := [] |} in
  let fs' := (@WriteFile Sample.externals Sample.kg "/tmp/stage" Sample.with_default).1 in
  exists kd,
    Sample.marshal (amendKustomization Sample.kg kus) = Ok kd
    /\ fs_lookup DefaultKustomizationFileName fs' = Some (File kd)
    /\ kustypes.Resources (amendKustomization Sample.kg kus) = kustypes.Resources kus
    /\ In transformerFileName (kustypes.Transformers (amendKustomization Sample.kg kus))
    /\ (forall image,
          In image (kustomizev1.Images (kustomizev1.Spec (kustomization Sample.kg))) ->
          kustomizev1.Name image
          ∈ map kustypes.Name (kustypes.Images (amendKustomization Sample.kg kus))).
Proof.
  intros kus fs'.
  apply (@WriteFile_existing_configuration Sample.externals Sample.kg "/tmp/stage"
           Sample.with_default
           ("resources:" +:+ Sample.nl +:+ "- namespace.yaml" +:+ Sample.nl)
           kus fs' "4c").
  - reflexivity.
  - reflexivity.
  - vm_compute. reflexivity.
Defined.

Lemma WriteFile_synthesized_configuration_sample :
  let fs' := (@WriteFile Sample.externals Sample.kg "/tmp/stage" Sample.staging).1 in
  exists kd,
    Sample.marshal
      {| kustypes.APIVersion := kustypes.KustomizationVersion;
         kustypes.Kind := kustypes.KustomizationKind;
         kustypes.Namespace := EmptyString;
         kustypes.Resources :=
           map (fun file => strings_Replace1 file "/tmp/stage" ".")
               ["/tmp/stage/namespace.yaml"; "/tmp/stage/service-account.yaml"];
         kustypes.Transformers := [transformerFileName];
         kustypes.Images := overrideImages [] [] |}
    = Ok kd
    /\ fs_lookup DefaultKustomizationFileName fs' = Some (File kd).
Proof.
  intros fs'.
  eapply (@WriteFile_synthesized_configuration Sample.externals Sample.kg "/tmp/stage"
            "/tmp/stage" ["/tmp/stage/namespace.yaml"; "/tmp/stage/service-account.yaml"]
            _ Sample.staging fs' "c6").
  - reflexivity.
  - reflexivity.
  - vm_compute. reflexivity.
  - reflexivity.
  - vm_compute. reflexivity.
  - vm_compute. reflexivity.
Defined.

Lemma runPostBuildActionsWith_empty_value_sample :
  runPostBuildActionsWith envsubst_Eval
    (substituting {[ "env" := EmptyString; "region" := "eu-central-1" ]})
    "${env:=dev} in ${region}"
  = runPostBuildActionsWith envsubst_Eval
      (substituting (delete "env" {[ "env" := EmptyString; "region" := "eu-central-1" ]}))
      "${env:=dev} in ${region}".
Proof.
  apply (runPostBuildActionsWith_empty_value envsubst_Eval
           {[ "env" := EmptyString; "region" := "eu-central-1" ]} "env").
  - apply envsubst_Eval_ext.
  - vm_compute. reflexivity.
  - apply (bool_decide_unpack _). vm_compute. exact I.
Defined.
